(** * nanotron.data.chat_dataset: the sample packer of [ChatDataset.__iter__]

    A shallow embedding of [src/nanotron/data/chat_dataset.py].  Python
    integers are [Z], Python lists are [list], a raised exception is the
    [Raise] branch of a small error monad, and the generator is a step
    function on the state that [__iter__] keeps in its local variables. *)

From Stdlib Require Import ZArith List Bool Lia.
Import ListNotations.
Open Scope Z_scope.

(** ** Python primitives used by the loop *)

Module Py.

Inductive exn := AssertionError | ZeroDivisionError.

Inductive result (A : Type) : Type :=
| Ok (a : A)
| Raise (e : exn).
Arguments Ok {A} a.
Arguments Raise {A} e.

Definition bind {A B} (m : result A) (k : A -> result B) : result B :=
  match m with
  | Ok a => k a
  | Raise e => Raise e
  end.

(** [len(l)] *)
Definition len {A} (l : list A) : Z := Z.of_nat (length l).

(** [l[:stop]]: a negative [stop] counts from the end and is clamped at the
    front, a non-negative one is clamped at the end.  [l[:-0]] is [l[:0]]. *)
Definition slice_to {A} (l : list A) (stop : Z) : list A :=
  let stop' := if stop <? 0 then Z.max (len l + stop) 0 else Z.min stop (len l) in
  firstn (Z.to_nat stop') l.

(** [sum(l)]: a left fold that starts from 0 *)
Definition sum (l : list Z) : Z := fold_left Z.add l 0.

(** [l * n]: [n] copies of [l], none when [n <= 0] *)
Definition mul {A} (l : list A) (n : Z) : list A := concat (repeat l (Z.to_nat n)).

(** [a == b] on lists of ints *)
Definition list_eqb (a b : list Z) : bool :=
  if list_eq_dec Z.eq_dec a b then true else false.

(** [[1 if x else 0 for x in l]] *)
Definition ones_and_zeros (l : list bool) : list Z :=
  map (fun x : bool => if x then 1 else 0) l.

(** [list(range(n))] *)
Definition range (n : Z) : list Z := map Z.of_nat (seq 0 (Z.to_nat n)).

End Py.
Import Py.

Notation "x <- m ;; k" := (bind m (fun x => k))
  (at level 61, m at next level, right associativity).

(** ** The helpers of [nanotron.data.collator] *)

Module Collator.

(** Modelled from the spec: [build_labels_completions_only] of
    [nanotron/data/collator.py], which is not part of the sources at hand.
    The CompletionsOnly label policy keeps a position trainable exactly when
    it lies in a completion span: completions [F,F,T,T] give mask [0,0,1,1]. *)
Definition build_labels_completions_only (input_ids : list Z) (is_completitions : list bool)
  : list bool := is_completitions.

(** Modelled from the spec: [build_labels] of [nanotron/data/collator.py],
    the Full label policy: every position is trainable, whatever the
    completion flags say; the result is as long as the tokens. *)
Definition build_labels (input_ids : list Z) (is_completitions : list bool) : list bool :=
  map (fun _ => true) input_ids.

(** Modelled from the spec: [build_position_ids] of [nanotron/data/collator.py],
    the reset-at-boundary position policy: the ids restart at 0 at the first
    token of every sample of the window. *)
Definition build_position_ids (lengths : list Z) (sequence_length : Z) : list Z :=
  concat (map range lengths).

(** Modelled from the spec: [build_position_ids_dummy] of
    [nanotron/data/collator.py], the continuous position policy: the ids
    count up across the whole window. *)
Definition build_position_ids_dummy (lengths : list Z) (sequence_length : Z) : list Z :=
  range (sum lengths).

End Collator.

(** ** Data *)

(** What [self.chat_tokenizer(...)] returns: the pair [(tokens, is_completition)]. *)
Record Sample := {
  tokens : list Z;
  is_completition : list bool
}.

(** The three buffers that [__iter__] keeps across iterations. *)
Record Buffers := {
  buffer_tokens : list Z;
  buffer_is_completition : list bool;
  buffer_lengths : list Z
}.

(** The slices taken off the buffers when a window is cut (lines 115-117). *)
Record Popped := {
  sample_tokens : list Z;
  sample_completitions : list bool;
  sample_lengths : list Z
}.

(** The dict yielded by the packing path.  The casts to [np.int32] arrays
    keep each element in its place and are not part of the record; [np_int32]
    below says when they succeed. *)
Module Packed.
Record t := {
  input_ids : list Z;
  label_mask : list Z;
  position_ids : list Z
}.
End Packed.

(** The dict yielded by the non-packing path. *)
Module Padded.
Record t := {
  input_ids : list Z;
  input_mask : list Z;
  label_mask : list Z
}.
End Padded.

Inductive Item :=
| PackedItem (w : Packed.t)
| PaddedItem (d : Padded.t).

(** The fields of [self] that [__iter__] reads.  [Row] is the type of a record
    of the streaming dataset; [dataset] is one pass over [self.dataset] (after
    the split by node and the shuffle), [chat_tokenizer] stands for
    [self.chat_tokenizer(sample[self.conversation_column_name])] and
    [debug_chat_template] for
    [self.debug_tokenizer.apply_chat_template(sample["conversations"])]. *)
Record ChatDataset (Row : Type) := {
  dataset : list Row;
  chat_tokenizer : Row -> Sample;
  debug_chat_template : Row -> list Z;
  pad_token_id : Z;
  sequence_length : Z;
  pack_samples : bool;
  sp_chunks : Z;
  create_labels : list Z -> list bool -> list bool;
  create_position_ids : list Z -> Z -> list Z
}.
Arguments dataset {Row} _.
Arguments chat_tokenizer {Row} _ _.
Arguments debug_chat_template {Row} _ _.
Arguments pad_token_id {Row} _.
Arguments sequence_length {Row} _.
Arguments pack_samples {Row} _.
Arguments sp_chunks {Row} _.
Arguments create_labels {Row} _ _ _.
Arguments create_position_ids {Row} _ _ _.

(** ** [__init__] *)

(** [sp_ranks_size * 2 if sp_ranks_size > 1 else 1] (line 68) *)
Definition sp_chunks_of (sp_ranks_size : Z) : Z :=
  if sp_ranks_size >? 1 then sp_ranks_size * 2 else 1.

(** The constructor, for the fields above: the loaded dataset, the two
    tokenizers and the pad token come from outside. *)
Definition init {Row} (rows : list Row) (tokenizer : Row -> Sample)
    (template : Row -> list Z) (pad : Z)
    (sequence_length : Z) (train_on_completions_only remove_cross_attention pack_samples : bool)
    (sp_ranks_size : Z) : ChatDataset Row :=
  {| dataset := rows;
     chat_tokenizer := tokenizer;
     debug_chat_template := template;
     pad_token_id := pad;
     sequence_length := sequence_length;
     pack_samples := pack_samples;
     sp_chunks := sp_chunks_of sp_ranks_size;
     create_labels :=
       if train_on_completions_only then Collator.build_labels_completions_only
       else Collator.build_labels;
     create_position_ids :=
       if remove_cross_attention then Collator.build_position_ids
       else Collator.build_position_ids_dummy |}.

(** ** The packing path (lines 108-140) *)

Definition empty_buffers : Buffers :=
  {| buffer_tokens := []; buffer_is_completition := []; buffer_lengths := [] |}.

(** Lines 109-111: the sample goes to the end of the three buffers. *)
Definition extend_buffers (b : Buffers) (s : Sample) : Buffers :=
  {| buffer_tokens := buffer_tokens b ++ tokens s;
     buffer_is_completition := buffer_is_completition b ++ is_completition s;
     buffer_lengths := buffer_lengths b ++ [len (tokens s)] |}.

(** Lines 115-120: the last sample is sliced off, and the assertion on the
    three lengths is checked. *)
Definition pop_last_sample (b : Buffers) (s : Sample) : result Popped :=
  let sample_tokens := slice_to (buffer_tokens b) (- len (tokens s)) in
  let sample_completitions := slice_to (buffer_is_completition b) (- len (tokens s)) in
  let sample_lengths := slice_to (buffer_lengths b) (-1) in
  if (len sample_tokens =? len sample_completitions)
     && (len sample_completitions =? sum sample_lengths)
  then Ok {| sample_tokens := sample_tokens;
             sample_completitions := sample_completitions;
             sample_lengths := sample_lengths |}
  else Raise AssertionError.

(** Lines 123-125: the buffers restart from copies of the sample. *)
Definition reset_buffers (s : Sample) : Buffers :=
  {| buffer_tokens := tokens s;
     buffer_is_completition := is_completition s;
     buffer_lengths := [len (tokens s)] |}.

(** Lines 109-125: one sample is taken in; on overflow the older content is
    popped and the buffers restart from the sample. *)
Definition pack_sample {Row} (self : ChatDataset Row) (b : Buffers) (s : Sample)
  : result (Buffers * option Popped) :=
  let max_buffer_token_len := 1 + sequence_length self in
  let b1 := extend_buffers b s in
  if len (buffer_tokens b1) >? max_buffer_token_len then
    p <- pop_last_sample b1 s ;;
    Ok (reset_buffers s, Some p)
  else Ok (b1, None).

(** Lines 128-140: the labels and the position ids of a popped window. *)
Definition packed_window {Row} (self : ChatDataset Row) (p : Popped) : Packed.t :=
  let sample_completitions :=
    create_labels self (sample_tokens p) (sample_completitions p) in
  let position_ids := create_position_ids self (sample_lengths p) (sequence_length self) in
  {| Packed.input_ids := sample_tokens p;
     Packed.label_mask := ones_and_zeros sample_completitions;
     Packed.position_ids := position_ids |}.

(** ** The non-packing path (lines 142-168) *)

Definition pad_sample {Row} (self : ChatDataset Row) (s : Sample) : result Padded.t :=
  let is_completition := create_labels self (tokens s) (is_completition s) in
  let tokens := tokens s in
  let input_mask := mul [1] (len tokens) in
  if sp_chunks self =? 0 then Raise ZeroDivisionError else
  let rem := len tokens mod sp_chunks self in
  let '(tokens, is_completition, input_mask) :=
    if negb (rem =? 0) then
      let pad_amount := sp_chunks self - rem in
      (tokens ++ mul [pad_token_id self] pad_amount,
       is_completition ++ mul [false] pad_amount,
       input_mask ++ mul [0] pad_amount)
    else (tokens, is_completition, input_mask) in
  let '(tokens, is_completition, input_mask) :=
    if sp_chunks self >? 1 then
      (tokens ++ [pad_token_id self], is_completition ++ [false], input_mask ++ [0])
    else (tokens, is_completition, input_mask) in
  if negb (len tokens =? len input_mask) then Raise AssertionError else
  if negb (len input_mask =? len is_completition) then Raise AssertionError else
  Ok {| Padded.input_ids := tokens;
        Padded.input_mask := input_mask;
        Padded.label_mask := ones_and_zeros is_completition |}.

(** ** The generator *)

(** The local state of a running [__iter__]: the buffers, the counter, and
    what the current [for] loop has not pulled yet. *)
Record IterState (Row : Type) := {
  bufs : Buffers;
  num_samples : Z;
  pending : list Row
}.
Arguments bufs {Row} _.
Arguments num_samples {Row} _.
Arguments pending {Row} _.

(** What one turn of the loops shows to the outside: an item handed to the
    caller, nothing, or the message printed when the dataset is re-looped. *)
Inductive Event :=
| Yield (d : Item)
| Quiet
| Relooped.

(** Lines 92-96 and the first [iter(self.dataset)]. *)
Definition iter_start {Row} (self : ChatDataset Row) : IterState Row :=
  {| bufs := empty_buffers; num_samples := 0; pending := dataset self |}.

(** Lines 100-169: the body of the [for] loop on one record; [rest] is what
    the iterator still holds. *)
Definition loop_body {Row} (self : ChatDataset Row) (b : Buffers) (n : Z)
    (rest : list Row) (row : Row) : result (IterState Row * Event) :=
  let s := chat_tokenizer self row in
  if negb (list_eqb (debug_chat_template self row) (slice_to (tokens s) (-1)))
  then Raise AssertionError
  else if pack_samples self then
    r <- pack_sample self b s ;;
    Ok ({| bufs := fst r; num_samples := n; pending := rest |},
        match snd r with
        | Some p => Yield (PackedItem (packed_window self p))
        | None => Quiet
        end)
  else
    d <- pad_sample self s ;;
    Ok ({| bufs := b; num_samples := n + 1; pending := rest |}, Yield (PaddedItem d)).

(** One turn: the next record is pulled and handled, or, when the iterator is
    exhausted, line 172 prints and [while True] opens the dataset again. *)
Definition gen_step {Row} (self : ChatDataset Row) (st : IterState Row)
  : result (IterState Row * Event) :=
  match pending st with
  | row :: rest => loop_body self (bufs st) (num_samples st) rest row
  | [] => Ok ({| bufs := bufs st; num_samples := num_samples st; pending := dataset self |},
              Relooped)
  end.

(** [fuel] turns of the generator: the events so far and where it stands. *)
Fixpoint gen_run {Row} (self : ChatDataset Row) (fuel : nat) (st : IterState Row)
  : list Event * result (IterState Row) :=
  match fuel with
  | O => ([], Ok st)
  | S k =>
      match gen_step self st with
      | Raise e => ([], Raise e)
      | Ok (st', ev) =>
          let r := gen_run self k st' in (ev :: fst r, snd r)
      end
  end.

(** The runs of the generator: [Steps self st evs st'] when the turns from
    [st] show the events [evs] and reach [st'] without an exception. *)
Inductive Steps {Row} (self : ChatDataset Row) : IterState Row -> list Event -> IterState Row -> Prop :=
| Steps_nil st : Steps self st [] st
| Steps_cons st st' st'' ev evs :
    gen_step self st = Ok (st', ev) ->
    Steps self st' evs st'' ->
    Steps self st (ev :: evs) st''.

(** The windows among the events, in order. *)
Fixpoint windows (evs : list Event) : list Packed.t :=
  match evs with
  | Yield (PackedItem w) :: rest => w :: windows rest
  | _ :: rest => windows rest
  | [] => []
  end.

(** ** Properties read off the states *)

(** The lengths recorded for the buffered samples add up to the buffered tokens. *)
Definition lengths_inv (b : Buffers) : Prop :=
  sum (buffer_lengths b) = len (buffer_tokens b).

(** The invariant of the packing buffer. *)
Definition buffer_inv (b : Buffers) : Prop :=
  sum (buffer_lengths b) = len (buffer_tokens b)
  /\ len (buffer_tokens b) = len (buffer_is_completition b).

(** What holds of every state of a run, whatever the tokenizer returns: the
    recorded lengths add up to the buffered tokens, none of them is negative,
    and the iterator holds records of the dataset. *)
Definition reachable_inv {Row} (self : ChatDataset Row) (st : IterState Row) : Prop :=
  lengths_inv (bufs st)
  /\ Forall (fun l => 0 <= l) (buffer_lengths (bufs st))
  /\ incl (pending st) (dataset self).

(** Two generators, maybe over records of different kinds, stand at the same
    point of the same stream of tokenized samples: equal buffers, and equal
    samples still to come in the current pass. *)
Definition same_stream {Row1 Row2} (self1 : ChatDataset Row1) (self2 : ChatDataset Row2)
    (st1 : IterState Row1) (st2 : IterState Row2) : Prop :=
  bufs st1 = bufs st2
  /\ map (chat_tokenizer self1) (pending st1) = map (chat_tokenizer self2) (pending st2).

(** The contract of the tokenizer: one completion flag per token. *)
Definition well_formed (s : Sample) : Prop :=
  length (tokens s) = length (is_completition s).

(** A sample that does not fit a window on its own. *)
Definition over_length {Row} (self : ChatDataset Row) (s : Sample) : Prop :=
  len (tokens s) > sequence_length self + 1.

(** No run ever yields a window made of the tokens of [s] and nothing else. *)
Definition never_emitted_alone {Row} (self : ChatDataset Row) (s : Sample) : Prop :=
  forall evs st w,
    Steps self (iter_start self) evs st -> In w (windows evs) ->
    Packed.input_ids w <> tokens s.

(** No sample is longer than a window. *)
Definition samples_fit {Row} (self : ChatDataset Row) : Prop :=
  forall row, In row (dataset self) ->
    len (tokens (chat_tokenizer self row)) <= sequence_length self + 1.

(** The length contracts of the two policies chosen by [__init__]: the labels
    are as many as the tokens, the position ids as many as the lengths say. *)
Definition labels_keep_length {Row} (self : ChatDataset Row) : Prop :=
  forall t c, length t = length c -> length (create_labels self t c) = length t.

Definition position_ids_cover {Row} (self : ChatDataset Row) : Prop :=
  forall ls, Forall (fun l => 0 <= l) ls ->
    len (create_position_ids self ls (sequence_length self)) = sum ls.

(** ** Concrete datasets, for the examples *)

(** A sample of [n] tokens [v], all of them completion tokens. *)
Definition sample_of (n : nat) (v : Z) : Sample :=
  {| tokens := repeat v n; is_completition := repeat true n |}.

(** A dataset whose records are already tokenized, with a chat template that
    agrees with the tokenizer, completions-only labels and position ids that
    restart at every sample. *)
Definition tokenized_dataset (rows : list Sample) (sequence_length : Z)
    (pack_samples : bool) (sp_ranks_size : Z) : ChatDataset Sample :=
  init rows (fun r => r) (fun r => slice_to (tokens r) (-1)) 0
       sequence_length true true pack_samples sp_ranks_size.

(** Windows of at most 3 tokens, fed a sample of 5 tokens and then one of 1. *)
Definition long_then_short : ChatDataset Sample :=
  tokenized_dataset [sample_of 5 7; sample_of 1 9] 2 true 1.

(** The overflow scenario: samples of 100, 50 and 80 tokens, windows of 151. *)
Definition overflow_scenario : ChatDataset Sample :=
  tokenized_dataset [sample_of 100 1; sample_of 50 2; sample_of 80 3] 150 true 1.

(** The same stream of samples as [overflow_scenario], from records that are
    bare lists of tokens, with another pad token and 3 sequence-parallel ranks. *)
Definition overflow_scenario_raw : ChatDataset (list Z) :=
  init [repeat 1 100%nat; repeat 2 50%nat; repeat 3 80%nat]
       (fun ts => {| tokens := ts; is_completition := map (fun _ => true) ts |})
       (fun ts => slice_to ts (-1)) 7
       150 true true true 3.

(** A sample of 5 tokens on 2 sequence-parallel ranks, without packing. *)
Definition five_tokens_two_ranks : ChatDataset Sample :=
  tokenized_dataset [sample_of 5 7] 150 false 2.

(** ** Quantities of a run *)

(** The tokens that a list of records is tokenized to, sample after sample. *)
Definition stream_tokens {Row} (self : ChatDataset Row) (rows : list Row) : list Z :=
  concat (map (fun row => tokens (chat_tokenizer self row)) rows).

(** The lengths that line 111 records for these records. *)
Definition stream_lengths {Row} (self : ChatDataset Row) (rows : list Row) : list Z :=
  map (fun row => len (tokens (chat_tokenizer self row))) rows.

(** Their completion flags, sample after sample. *)
Definition stream_flags {Row} (self : ChatDataset Row) (rows : list Row) : list bool :=
  concat (map (fun row => is_completition (chat_tokenizer self row)) rows).

(** The tokens of the windows among the events, window after window. *)
Definition window_tokens (evs : list Event) : list Z :=
  concat (map Packed.input_ids (windows evs)).

(** The number of items handed to the caller. *)
Fixpoint yields (evs : list Event) : Z :=
  match evs with
  | Yield _ :: rest => 1 + yields rest
  | _ :: rest => yields rest
  | [] => 0
  end.

(** The range of [np.int32]. *)
Definition in_int32 (x : Z) : bool := (-2147483648 <=? x) && (x <? 2147483648).

(** [np.array(l, dtype=np.int32)] (lines 137-138): the list as it is when
    every element is in the range of [np.int32]; an element out of the range
    makes the cast raise OverflowError, which is [None] here. *)
Definition np_int32 (l : list Z) : option (list Z) :=
  if forallb in_int32 l then Some l else None.

(** A mask: nothing but 0 and 1. *)
Definition binary (l : list Z) : Prop := Forall (fun x => x = 0 \/ x = 1) l.

(** The masks of a yielded item are binary. *)
Definition binary_masks (ev : Event) : Prop :=
  match ev with
  | Yield (PackedItem w) => binary (Packed.label_mask w)
  | Yield (PaddedItem d) => binary (Padded.input_mask d) /\ binary (Padded.label_mask d)
  | _ => True
  end.

(** The buffers hold whole samples of the dataset: the tokens of some of its
    records, one after the other, with their lengths recorded in order. *)
Definition holds_whole_samples {Row} (self : ChatDataset Row) (b : Buffers) : Prop :=
  exists rows,
    incl rows (dataset self)
    /\ buffer_tokens b = stream_tokens self rows
    /\ buffer_lengths b = stream_lengths self rows.

(** What the tokenizer and the chat template must give for a record to go
    through the packing path: one flag per token, at least one token, and a
    template that agrees with the tokens but the last. *)
Definition packable {Row} (self : ChatDataset Row) (row : Row) : Prop :=
  well_formed (chat_tokenizer self row)
  /\ tokens (chat_tokenizer self row) <> []
  /\ debug_chat_template self row = slice_to (tokens (chat_tokenizer self row)) (-1).

(** A dataset without records, and one read without packing. *)
Definition no_records : ChatDataset Sample :=
  tokenized_dataset [] 150 true 1.

Definition unpacked_scenario : ChatDataset Sample :=
  tokenized_dataset [sample_of 5 7; sample_of 8 9] 150 false 2.

(** * Proofs *)

(** ** The Python primitives *)

#[local] Arguments sum : simpl never.
#[local] Arguments len : simpl never.
#[local] Arguments slice_to : simpl never.

Lemma len_nonneg {A} (l : list A) : 0 <= len l.
Proof. unfold len. lia. Qed.

Lemma len_app {A} (l1 l2 : list A) : len (l1 ++ l2) = len l1 + len l2.
Proof. unfold len. rewrite length_app. lia. Qed.

Lemma len_nil_inv {A} (l : list A) : len l = 0 -> l = [].
Proof. destruct l; [reflexivity | unfold len; simpl; lia]. Qed.

Lemma len_eq_length {A B} (l1 : list A) (l2 : list B) :
  len l1 = len l2 <-> length l1 = length l2.
Proof. unfold len. lia. Qed.

Lemma fold_add_shift (l : list Z) (a : Z) : fold_left Z.add l a = a + fold_left Z.add l 0.
Proof.
  revert a. induction l as [|x l IH]; intro a; simpl.
  - lia.
  - rewrite (IH (a + x)), (IH x). lia.
Qed.

Lemma sum_nil : sum [] = 0.
Proof. reflexivity. Qed.

Lemma sum_cons (x : Z) (l : list Z) : sum (x :: l) = x + sum l.
Proof. unfold sum. simpl. apply fold_add_shift. Qed.

Lemma sum_app (l1 l2 : list Z) : sum (l1 ++ l2) = sum l1 + sum l2.
Proof.
  induction l1 as [|x l1 IH].
  - reflexivity.
  - rewrite <- app_comm_cons, !sum_cons, IH. lia.
Qed.

Lemma sum_snoc (l : list Z) (x : Z) : sum (l ++ [x]) = sum l + x.
Proof. rewrite sum_app, sum_cons, sum_nil. lia. Qed.

Lemma sum_nonneg (l : list Z) : Forall (fun x => 0 <= x) l -> 0 <= sum l.
Proof.
  induction 1 as [|x l Hx _ IH].
  - rewrite sum_nil. lia.
  - rewrite sum_cons. lia.
Qed.

(** [(l ++ t)[:-len(t)]] gives back [l], unless [t] is empty: then the stop
    is 0 and the slice is empty. *)
Lemma slice_to_drop_last {A B} (l t : list A) (u : list B) :
  length t = length u -> u <> [] -> slice_to (l ++ t) (- len u) = l.
Proof.
  intros Hlen Hu. unfold slice_to.
  assert (0 < len u) by (destruct u; [congruence | unfold len; simpl; lia]).
  destruct (Z.ltb_spec (- len u) 0); [|lia].
  rewrite len_app.
  replace (Z.to_nat (Z.max (len l + len t + - len u) 0)) with (length l)
    by (unfold len in *; lia).
  rewrite firstn_app, firstn_all, Nat.sub_diag. simpl. apply app_nil_r.
Qed.

Lemma slice_to_zero {A} (l : list A) : slice_to l 0 = [].
Proof. unfold slice_to. simpl. destruct (Z.min 0 (len l)) eqn:E; try reflexivity.
  pose proof (len_nonneg l). lia. Qed.

Lemma slice_to_snoc {A} (l : list A) (x : A) : slice_to (l ++ [x]) (-1) = l.
Proof.
  apply (slice_to_drop_last l [x] [x]); [reflexivity | discriminate].
Qed.

Lemma len_slice_to_le {A} (l : list A) (stop : Z) : len (slice_to l stop) <= len l.
Proof.
  unfold slice_to, len. rewrite length_firstn. lia.
Qed.

(** A slice that stops [k >= 0] elements before the end of [l ++ t], with
    [t] of [k] elements or more, is no longer than [l]. *)
Lemma len_slice_to_app_le {A} (l t : list A) (k : Z) :
  0 <= k -> k = len t -> len (slice_to (l ++ t) (- k)) <= len l.
Proof.
  intros Hk ->. unfold slice_to.
  destruct (Z.ltb_spec (- len t) 0).
  - unfold len. rewrite length_firstn, length_app. lia.
  - replace (- len t) with 0 by lia. simpl.
    change (len (firstn (Z.to_nat (Z.min 0 (len (l ++ t)))) (l ++ t)) <= len l).
    unfold len. rewrite length_firstn. lia.
Qed.

Lemma length_mul_singleton {A} (x : A) (n : Z) : length (mul [x] n) = Z.to_nat n.
Proof.
  unfold mul. induction (Z.to_nat n) as [|k IH]; simpl; [reflexivity | now rewrite IH].
Qed.

Lemma length_ones_and_zeros (l : list bool) : length (ones_and_zeros l) = length l.
Proof. apply length_map. Qed.

Lemma length_range (n : Z) : length (range n) = Z.to_nat n.
Proof. unfold range. now rewrite length_map, length_seq. Qed.

(** ** One call of the packing step *)

Lemma nil_or_not {A} (l : list A) : l = [] \/ l <> [].
Proof. destruct l; [left | right]; congruence. Qed.

(** Projections of the buffers that a step builds, without touching the
    arithmetic around them. *)
Ltac project_buffers :=
  unfold extend_buffers, reset_buffers, empty_buffers in *;
  cbn [buffer_tokens buffer_is_completition buffer_lengths
       sample_tokens sample_completitions sample_lengths] in *.

Section PackingStep.

Context {Row : Type}.
Variable self : ChatDataset Row.

Lemma extend_buffers_lengths_inv (b : Buffers) (s : Sample) :
  lengths_inv b -> lengths_inv (extend_buffers b s).
Proof.
  unfold lengths_inv. intros H. simpl. rewrite sum_snoc, len_app. lia.
Qed.

Lemma extend_buffers_inv (b : Buffers) (s : Sample) :
  buffer_inv b -> well_formed s -> buffer_inv (extend_buffers b s).
Proof.
  unfold buffer_inv, well_formed. intros [H1 H2] Hs. simpl.
  rewrite sum_snoc, !len_app. apply len_eq_length in Hs. lia.
Qed.

Lemma reset_buffers_lengths_inv (s : Sample) : lengths_inv (reset_buffers s).
Proof. unfold lengths_inv. simpl. rewrite sum_cons, sum_nil. lia. Qed.

Lemma reset_buffers_inv (s : Sample) : well_formed s -> buffer_inv (reset_buffers s).
Proof.
  unfold buffer_inv, well_formed. intros Hs. simpl.
  rewrite sum_cons, sum_nil. apply len_eq_length in Hs. lia.
Qed.

(** The two ways out of [pack_sample] without an exception. *)
Lemma pack_sample_cases (b b' : Buffers) (s : Sample) (o : option Popped) :
  pack_sample self b s = Ok (b', o) ->
  (len (buffer_tokens b) + len (tokens s) <= 1 + sequence_length self
   /\ b' = extend_buffers b s /\ o = None)
  \/ (len (buffer_tokens b) + len (tokens s) > 1 + sequence_length self
      /\ b' = reset_buffers s
      /\ exists p, o = Some p /\ pop_last_sample (extend_buffers b s) s = Ok p).
Proof.
  unfold pack_sample. simpl buffer_tokens. rewrite len_app.
  destruct (Z.gtb_spec (len (buffer_tokens b) + len (tokens s)) (1 + sequence_length self)) as [Hgt|Hle].
  - destruct (pop_last_sample (extend_buffers b s) s) as [p|e] eqn:Hp; cbn [bind]; [|discriminate].
    intros [= <- <-]. right. split; [lia|]. split; [reflexivity|]. now exists p.
  - intros [= <- <-]. left. split; [lia|]. now split.
Qed.

(** What the assertion of line 120 gives when it passes. *)
Lemma pop_last_sample_checked (b : Buffers) (s : Sample) (p : Popped) :
  pop_last_sample b s = Ok p ->
  len (sample_tokens p) = len (sample_completitions p)
  /\ len (sample_completitions p) = sum (sample_lengths p)
  /\ sample_tokens p = slice_to (buffer_tokens b) (- len (tokens s))
  /\ sample_completitions p = slice_to (buffer_is_completition b) (- len (tokens s))
  /\ sample_lengths p = slice_to (buffer_lengths b) (-1).
Proof.
  unfold pop_last_sample.
  destruct (_ && _) eqn:Hchk; [|discriminate].
  apply andb_true_iff in Hchk as [H1 H2]. apply Z.eqb_eq in H1, H2.
  intros [= <-]. simpl. auto.
Qed.

(** The popped lengths are those that were recorded before the sample came. *)
Lemma popped_lengths (b : Buffers) (s : Sample) (p : Popped) :
  pop_last_sample (extend_buffers b s) s = Ok p ->
  sample_lengths p = buffer_lengths b.
Proof.
  intros Hp. apply pop_last_sample_checked in Hp as (_ & _ & _ & _ & ->).
  project_buffers. apply slice_to_snoc.
Qed.

(** The popped tokens are the tokens that were buffered before the sample came. *)
Lemma popped_tokens (b : Buffers) (s : Sample) (p : Popped) :
  lengths_inv b ->
  pop_last_sample (extend_buffers b s) s = Ok p ->
  sample_tokens p = buffer_tokens b.
Proof.
  intros Hinv Hp. pose proof (popped_lengths _ _ _ Hp) as Hl.
  apply pop_last_sample_checked in Hp as (H1 & H2 & Ht & _ & _).
  project_buffers.
  destruct (nil_or_not (tokens s)) as [Hs|Hs].
  - rewrite Hs in Ht. change (- len (@nil Z)) with 0 in Ht. rewrite slice_to_zero in Ht.
    rewrite <- H1, Hl, Ht in H2. red in Hinv. rewrite Hinv in H2.
    rewrite Ht. symmetry. apply len_nil_inv. change (len (@nil Z)) with 0 in H2. lia.
  - rewrite Ht. now apply slice_to_drop_last.
Qed.

(** When the sample is not empty, or nothing was buffered, the assertion of
    line 120 passes on buffers that satisfy the invariant. *)
Lemma pop_last_sample_ok (b : Buffers) (s : Sample) :
  buffer_inv b -> well_formed s ->
  tokens s <> [] \/ buffer_tokens b = [] ->
  pop_last_sample (extend_buffers b s) s =
  Ok {| sample_tokens := buffer_tokens b;
        sample_completitions := buffer_is_completition b;
        sample_lengths := buffer_lengths b |}.
Proof.
  intros [Hsum Hfl] Hs Hne. unfold pop_last_sample. project_buffers.
  rewrite slice_to_snoc.
  assert (slice_to (buffer_tokens b ++ tokens s) (- len (tokens s)) = buffer_tokens b
          /\ slice_to (buffer_is_completition b ++ is_completition s) (- len (tokens s))
             = buffer_is_completition b) as [-> ->].
  { destruct (nil_or_not (tokens s)) as [Ht|Ht].
    - destruct Hne as [Hne|Hb]; [congruence|].
      rewrite Ht. change (- len (@nil Z)) with 0. rewrite !slice_to_zero.
      rewrite Hb in *. split; [reflexivity|].
      symmetry. apply len_nil_inv. rewrite <- Hfl. reflexivity.
    - split.
      + now apply slice_to_drop_last.
      + apply slice_to_drop_last; [now symmetry | assumption]. }
  rewrite Hfl, Hsum, Hfl, !Z.eqb_refl. reflexivity.
Qed.

End PackingStep.

(** ** Turns of the generator *)

Section Generator.

Context {Row : Type}.
Variable self : ChatDataset Row.

(** The three kinds of turn that end without an exception. *)
Lemma gen_step_cases (st st' : IterState Row) (ev : Event) :
  gen_step self st = Ok (st', ev) ->
  (pending st = [] /\ ev = Relooped
   /\ bufs st' = bufs st /\ num_samples st' = num_samples st /\ pending st' = dataset self)
  \/ (exists row, pending st = row :: pending st'
      /\ pack_samples self = true
      /\ num_samples st' = num_samples st
      /\ exists o, pack_sample self (bufs st) (chat_tokenizer self row) = Ok (bufs st', o)
         /\ ev = match o with
                 | Some p => Yield (PackedItem (packed_window self p))
                 | None => Quiet
                 end)
  \/ (exists row, pending st = row :: pending st'
      /\ pack_samples self = false
      /\ bufs st' = bufs st
      /\ exists d, pad_sample self (chat_tokenizer self row) = Ok d
         /\ ev = Yield (PaddedItem d)).
Proof.
  unfold gen_step. destruct (pending st) as [|row rest] eqn:Hpend.
  - intros [= <- <-]. left. cbn. auto.
  - unfold loop_body. destruct (negb _); [discriminate|].
    destruct (pack_samples self) eqn:Hpack.
    + destruct (pack_sample self (bufs st) (chat_tokenizer self row)) as [[b' o]|e] eqn:Hstep;
        cbn [bind fst snd]; [|discriminate].
      intros [= <- <-]. right. left. exists row. cbn. repeat split. now exists o.
    + destruct (pad_sample self (chat_tokenizer self row)) as [d|e] eqn:Hpad;
        cbn [bind]; [|discriminate].
      intros [= <- <-]. right. right. exists row. cbn. repeat split. now exists d.
Qed.

(** A property of the states that every turn keeps holds along a run, and
    what every turn shows holds of every event of the run. *)
Lemma Steps_invariant (P : IterState Row -> Prop) (Q : Event -> Prop) :
  (forall st st' ev, P st -> gen_step self st = Ok (st', ev) -> P st' /\ Q ev) ->
  forall st evs st', Steps self st evs st' -> P st -> P st' /\ Forall Q evs.
Proof.
  intros Hstep st evs st' Hrun.
  induction Hrun as [st|st st1 st2 ev evs H1 _ IH]; intros HP.
  - split; [assumption | constructor].
  - destruct (Hstep _ _ _ HP H1) as [HP1 HQ].
    destruct (IH HP1) as [HP2 HQs]. split; [assumption | now constructor].
Qed.

(** A run can be cut before its last turn. *)
Lemma Steps_snoc (st st' st'' : IterState Row) (evs : list Event) (ev : Event) :
  Steps self st evs st' -> gen_step self st' = Ok (st'', ev) ->
  Steps self st (evs ++ [ev]) st''.
Proof.
  induction 1 as [st|st st1 st2 e es H1 _ IH]; intros Hlast; simpl.
  - econstructor; [eassumption | constructor].
  - econstructor; [eassumption | now apply IH].
Qed.

(** Every window of a run was yielded by one of its turns, taken from a
    state that the run went through. *)
Lemma windows_yielded (st st' : IterState Row) (evs : list Event) (w : Packed.t) :
  Steps self st evs st' -> In w (windows evs) ->
  exists evs1 st1 st2,
    Steps self st evs1 st1 /\ gen_step self st1 = Ok (st2, Yield (PackedItem w)).
Proof.
  induction 1 as [st|st st1 st2 ev evs H1 Hrun IH]; intros Hin.
  - destruct Hin.
  - assert (ev = Yield (PackedItem w) \/ In w (windows evs)) as [->|Hin'].
    { destruct ev as [[w'|d]| |]; simpl in Hin; auto.
      destruct Hin as [->|Hin]; auto. }
    + exists [], st, st1. split; [constructor | assumption].
    + destruct (IH Hin') as (evs1 & sa & sb & Hpre & Hy).
      exists (ev :: evs1), sa, sb. split; [econstructor; eassumption | assumption].
Qed.

(** What [gen_run] computes is a run. *)
Lemma gen_run_Steps (fuel : nat) (st st' : IterState Row) (evs : list Event) :
  gen_run self fuel st = (evs, Ok st') -> Steps self st evs st'.
Proof.
  revert st evs. induction fuel as [|k IH]; intros st evs; simpl.
  - intros [= <- <-]. constructor.
  - destruct (gen_step self st) as [[st1 ev]|e] eqn:Hstep; [|discriminate].
    destruct (gen_run self k st1) as [evs1 r] eqn:Hrest. simpl.
    intros [= <- ->]. econstructor; [eassumption | now apply IH].
Qed.

Lemma reachable_inv_step (st st' : IterState Row) (ev : Event) :
  reachable_inv self st -> gen_step self st = Ok (st', ev) -> reachable_inv self st'.
Proof.
  intros (Hsum & Hpos & Hincl) Hstep. unfold reachable_inv.
  apply gen_step_cases in Hstep
    as [(Hp & _ & Hb & _ & Hd)
       |[(row & Hp & _ & _ & o & Hpack & _)|(row & Hp & _ & Hb & _)]].
  - rewrite Hb, Hd. repeat split; auto using incl_refl.
  - assert (incl (pending st') (dataset self)) as Hincl'
      by (intros x Hx; apply Hincl; rewrite Hp; now right).
    apply pack_sample_cases in Hpack as [(_ & -> & _)|(_ & -> & _)].
    + repeat split; auto using extend_buffers_lengths_inv.
      simpl. apply Forall_app. split; [assumption|].
      constructor; [apply len_nonneg | constructor].
    + repeat split; auto using reset_buffers_lengths_inv.
      simpl. constructor; [apply len_nonneg | constructor].
  - rewrite Hb. repeat split; auto.
    intros x Hx; apply Hincl; rewrite Hp; now right.
Qed.

Lemma reachable_inv_start : reachable_inv self (iter_start self).
Proof.
  repeat split; simpl; auto using incl_refl. 
Qed.

Lemma reachable_inv_run (evs : list Event) (st : IterState Row) :
  Steps self (iter_start self) evs st -> reachable_inv self st.
Proof.
  intros Hrun.
  apply (Steps_invariant (reachable_inv self) (fun _ => True)) in Hrun as [H _];
    auto using reachable_inv_start.
  intros s s' ev HP Hs. split; [eapply reachable_inv_step; eassumption | exact I].
Qed.

(** A turn that yields a window, from a state of a run: the window is built
    from the slices popped off the buffers, which are the buffers as they
    stood before the record of this turn, and that record stays behind. *)
Lemma yield_from_reachable (st st' : IterState Row) (w : Packed.t) :
  reachable_inv self st ->
  gen_step self st = Ok (st', Yield (PackedItem w)) ->
  exists p row,
    w = packed_window self p
    /\ sample_tokens p = buffer_tokens (bufs st)
    /\ sample_lengths p = buffer_lengths (bufs st)
    /\ len (sample_tokens p) = len (sample_completitions p)
    /\ len (sample_completitions p) = sum (sample_lengths p)
    /\ pending st = row :: pending st'
    /\ bufs st' = reset_buffers (chat_tokenizer self row).
Proof.
  intros (Hsum & _ & _) Hstep.
  apply gen_step_cases in Hstep
    as [(_ & Hev & _)
       |[(row & Hp & _ & _ & o & Hpack & Hev)|(row & _ & _ & _ & d & _ & Hev)]];
    try discriminate.
  destruct o as [p|]; [|discriminate]. injection Hev as ->.
  exists p, row.
  apply pack_sample_cases in Hpack as [(_ & _ & Hnone)|(_ & Hb' & q & Hq & Hpop)];
    [discriminate|]. injection Hq as <-.
  pose proof (popped_lengths _ _ _ Hpop) as Hl.
  pose proof (popped_tokens _ _ _ Hsum Hpop) as Ht.
  apply pop_last_sample_checked in Hpop as (H1 & H2 & _).
  repeat split; auto.
Qed.

(** When no sample is longer than a window, the buffers never hold more than
    a window between two turns. *)
Lemma buffer_fits_run (evs : list Event) (st : IterState Row) :
  samples_fit self ->
  Steps self (iter_start self) evs st ->
  len (buffer_tokens (bufs st)) <= Z.max 0 (1 + sequence_length self).
Proof.
  intros Hfit Hrun.
  apply (Steps_invariant
           (fun st => reachable_inv self st
                      /\ len (buffer_tokens (bufs st)) <= Z.max 0 (1 + sequence_length self))
           (fun _ => True)) in Hrun as [[_ H] _]; auto.
  - intros s s' ev [Hinv Hb] Hstep. split; [|exact I].
    split; [eapply reachable_inv_step; eassumption|].
    destruct Hinv as (_ & _ & Hincl).
    apply gen_step_cases in Hstep
      as [(_ & _ & -> & _)
         |[(row & Hp & _ & _ & o & Hpack & _)|(row & _ & _ & -> & _)]]; auto.
    apply pack_sample_cases in Hpack as [(Hle & -> & _)|(_ & -> & _)].
    + cbn [extend_buffers buffer_tokens]. rewrite len_app. lia.
    + cbn [reset_buffers buffer_tokens].
      assert (In row (dataset self)) as Hin by (apply Hincl; rewrite Hp; now left).
      specialize (Hfit row Hin). lia.
  - split; [apply reachable_inv_start|]. cbn. change (len (@nil Z)) with 0. lia.
Qed.

End Generator.

(** ** The packing path, claim by claim *)

(** C6: whenever the packing step emits a window, the buffers right after it
    hold exactly the sample that was just appended: its tokens, its
    completion flags, and the one-element list of its length. *)
Theorem buffer_after_emission {Row} (self : ChatDataset Row)
    (b b' : Buffers) (s : Sample) (p : Popped) :
  pack_sample self b s = Ok (b', Some p) ->
  buffer_tokens b' = tokens s
  /\ buffer_is_completition b' = is_completition s
  /\ buffer_lengths b' = [len (tokens s)].
Proof.
  intros Hstep.
  apply pack_sample_cases in Hstep as [(_ & _ & Hnone)|(_ & -> & _)].
  - discriminate.
  - repeat split.
Qed.

Lemma buffer_after_emission_witness :
  let s3 := sample_of 80 3 in
  let b2 := extend_buffers (extend_buffers empty_buffers (sample_of 100 1)) (sample_of 50 2) in
  let p := {| sample_tokens := repeat 1 100%nat ++ repeat 2 50%nat;
              sample_completitions := repeat true 150%nat;
              sample_lengths := [100; 50] |} in
  pack_sample overflow_scenario b2 s3 = Ok (reset_buffers s3, Some p)
  /\ buffer_tokens (reset_buffers s3) = tokens s3
  /\ buffer_is_completition (reset_buffers s3) = is_completition s3
  /\ buffer_lengths (reset_buffers s3) = [len (tokens s3)].
Proof.
  intros s3 b2 p.
  assert (Hstep : pack_sample overflow_scenario b2 s3 = Ok (reset_buffers s3, Some p))
    by (vm_compute; reflexivity).
  split; [exact Hstep|].
  exact (buffer_after_emission overflow_scenario b2 (reset_buffers s3) s3 p Hstep).
Defined.

(** C2: a window that a run of the packing path yields is cut from the
    buffers as they stood before the sample that overflowed them: the lengths
    recorded for it are the lengths recorded in the buffer, they add up to
    the length of its input_ids, and its input_ids are the buffered tokens,
    none dropped and none repeated; the sample itself is what stays behind. *)
Theorem emitted_lengths_sum {Row} (self : ChatDataset Row)
    (evs : list Event) (st st' : IterState Row) (w : Packed.t) :
  Steps self (iter_start self) evs st ->
  gen_step self st = Ok (st', Yield (PackedItem w)) ->
  exists p row,
    w = packed_window self p
    /\ sample_lengths p = buffer_lengths (bufs st)
    /\ sum (sample_lengths p) = len (Packed.input_ids w)
    /\ Packed.input_ids w = buffer_tokens (bufs st)
    /\ pending st = row :: pending st'
    /\ buffer_tokens (bufs st') = tokens (chat_tokenizer self row).
Proof.
  intros Hrun Hstep.
  apply reachable_inv_run in Hrun.
  destruct (yield_from_reachable self _ _ _ Hrun Hstep)
    as (p & row & -> & Ht & Hl & H1 & H2 & Hp & Hb).
  exists p, row. cbn [packed_window Packed.input_ids]. rewrite Hb.
  repeat split; auto. lia.
Qed.

Lemma emitted_lengths_sum_witness :
  let s1 := sample_of 100 1 in
  let s2 := sample_of 50 2 in
  let s3 := sample_of 80 3 in
  let st := {| bufs := extend_buffers (extend_buffers empty_buffers s1) s2;
               num_samples := 0; pending := [s3] |} in
  let st' : IterState Sample :=
    {| bufs := reset_buffers s3; num_samples := 0; pending := [] |} in
  let w := packed_window overflow_scenario
             {| sample_tokens := tokens s1 ++ tokens s2;
                sample_completitions := is_completition s1 ++ is_completition s2;
                sample_lengths := [100; 50] |} in
  exists p row,
    w = packed_window overflow_scenario p
    /\ sample_lengths p = [100; 50]
    /\ sum (sample_lengths p) = len (Packed.input_ids w)
    /\ Packed.input_ids w = tokens s1 ++ tokens s2
    /\ [s3] = [row]
    /\ tokens s3 = tokens row.
Proof.
  intros s1 s2 s3 st st' w.
  apply (emitted_lengths_sum overflow_scenario [Quiet; Quiet] st st' w).
  - apply (gen_run_Steps _ 2). vm_compute. reflexivity.
  - vm_compute. reflexivity.
Defined.

Section PackingCalls.

Context {Row : Type}.
Variable self : ChatDataset Row.

Lemma buffer_inv_empty : buffer_inv empty_buffers.
Proof. split; reflexivity. Qed.

(** A sample that still fits is only appended. *)
Lemma pack_sample_fits (b : Buffers) (s : Sample) :
  len (buffer_tokens b) + len (tokens s) <= 1 + sequence_length self ->
  pack_sample self b s = Ok (extend_buffers b s, None).
Proof.
  intros Hle. unfold pack_sample. cbn [extend_buffers buffer_tokens]. rewrite len_app.
  destruct (Z.gtb_spec (len (buffer_tokens b) + len (tokens s)) (1 + sequence_length self));
    [lia | reflexivity].
Qed.

(** A sample that overflows the buffers pushes out all that was there. *)
Lemma pack_sample_overflows (b : Buffers) (s : Sample) :
  len (buffer_tokens b) + len (tokens s) > 1 + sequence_length self ->
  buffer_inv b -> well_formed s ->
  tokens s <> [] \/ buffer_tokens b = [] ->
  pack_sample self b s =
  Ok (reset_buffers s,
      Some {| sample_tokens := buffer_tokens b;
              sample_completitions := buffer_is_completition b;
              sample_lengths := buffer_lengths b |}).
Proof.
  intros Hgt Hinv Hs Hne. unfold pack_sample.
  cbn [extend_buffers buffer_tokens]. rewrite len_app.
  destruct (Z.gtb_spec (len (buffer_tokens b) + len (tokens s)) (1 + sequence_length self));
    [|lia].
  fold (extend_buffers b s). rewrite pop_last_sample_ok by assumption. reflexivity.
Qed.

End PackingCalls.

(** C4: with sequence_length = 150, samples of 100, 50 and 80 tokens fed to
    empty buffers: the first two are only appended; the third one makes the
    step emit a window with the first two samples (150 tokens, recorded
    lengths 100 and 50) and leaves the buffers with the third sample alone
    (80 tokens, recorded length 80). *)
Theorem overflow_scenario_three_samples {Row} (self : ChatDataset Row) (s1 s2 s3 : Sample) :
  sequence_length self = 150 ->
  well_formed s1 -> well_formed s2 -> well_formed s3 ->
  len (tokens s1) = 100 -> len (tokens s2) = 50 -> len (tokens s3) = 80 ->
  let b1 := extend_buffers empty_buffers s1 in
  let b2 := extend_buffers b1 s2 in
  pack_sample self empty_buffers s1 = Ok (b1, None)
  /\ pack_sample self b1 s2 = Ok (b2, None)
  /\ exists b3 p,
       pack_sample self b2 s3 = Ok (b3, Some p)
       /\ Packed.input_ids (packed_window self p) = tokens s1 ++ tokens s2
       /\ len (Packed.input_ids (packed_window self p)) = 150
       /\ sample_lengths p = [100; 50]
       /\ buffer_tokens b3 = tokens s3
       /\ buffer_is_completition b3 = is_completition s3
       /\ len (buffer_tokens b3) = 80
       /\ buffer_lengths b3 = [80].
Proof.
  intros Hseq W1 W2 W3 L1 L2 L3 b1 b2.
  assert (I1 : buffer_inv b1) by (apply extend_buffers_inv; auto using buffer_inv_empty).
  assert (I2 : buffer_inv b2) by (apply extend_buffers_inv; auto).
  assert (T2 : buffer_tokens b2 = tokens s1 ++ tokens s2) by reflexivity.
  split; [|split].
  - apply pack_sample_fits. change (buffer_tokens empty_buffers) with (@nil Z).
    change (len (@nil Z)) with 0. lia.
  - apply pack_sample_fits. change (buffer_tokens b1) with (tokens s1). lia.
  - eexists; eexists. split.
    + apply pack_sample_overflows; auto.
      * rewrite T2, len_app. lia.
      * left. intros E. rewrite E in L3. discriminate.
    + cbn [packed_window Packed.input_ids sample_tokens sample_lengths
           reset_buffers buffer_tokens buffer_is_completition buffer_lengths].
      rewrite T2, len_app, L1, L2, L3.
      change (buffer_lengths b2) with [len (tokens s1); len (tokens s2)].
      rewrite L1, L2. repeat split.
Qed.

Lemma overflow_scenario_three_samples_witness :
  let s1 := sample_of 100 1 in
  let s2 := sample_of 50 2 in
  let s3 := sample_of 80 3 in
  let b1 := extend_buffers empty_buffers s1 in
  let b2 := extend_buffers b1 s2 in
  pack_sample overflow_scenario empty_buffers s1 = Ok (b1, None)
  /\ pack_sample overflow_scenario b1 s2 = Ok (b2, None)
  /\ exists b3 p,
       pack_sample overflow_scenario b2 s3 = Ok (b3, Some p)
       /\ Packed.input_ids (packed_window overflow_scenario p) = tokens s1 ++ tokens s2
       /\ len (Packed.input_ids (packed_window overflow_scenario p)) = 150
       /\ sample_lengths p = [100; 50]
       /\ buffer_tokens b3 = tokens s3
       /\ buffer_is_completition b3 = is_completition s3
       /\ len (buffer_tokens b3) = 80
       /\ buffer_lengths b3 = [80].
Proof.
  apply (overflow_scenario_three_samples overflow_scenario
           (sample_of 100 1) (sample_of 50 2) (sample_of 80 3)); reflexivity.
Defined.

Lemma list_eqb_refl (l : list Z) : list_eqb l l = true.
Proof. unfold list_eqb. destruct (list_eq_dec Z.eq_dec l l); congruence. Qed.

(** A turn on a record that passes the check against the chat template, in
    packing mode, is a call of the packing step. *)
Lemma gen_step_packs {Row} (self : ChatDataset Row) (st : IterState Row)
    (row : Row) (rest : list Row) (b' : Buffers) (o : option Popped) :
  pack_samples self = true ->
  pending st = row :: rest ->
  debug_chat_template self row = slice_to (tokens (chat_tokenizer self row)) (-1) ->
  pack_sample self (bufs st) (chat_tokenizer self row) = Ok (b', o) ->
  gen_step self st =
  Ok ({| bufs := b'; num_samples := num_samples st; pending := rest |},
      match o with
      | Some p => Yield (PackedItem (packed_window self p))
      | None => Quiet
      end).
Proof.
  intros Hpack Hpend Hdbg Hstep. unfold gen_step, loop_body.
  rewrite Hpend, Hdbg, list_eqb_refl, Hpack, Hstep. reflexivity.
Qed.

(** C10: some input makes the packing path yield a window without tokens:
    when the first record of the dataset is tokenized to more than
    sequence_length + 1 tokens, the first turn of the generator finds the
    buffers overflowed, slices the sample off and yields what is left, a
    window whose input_ids is empty. *)
Theorem first_sample_over_length_yields_empty_window {Row} (self : ChatDataset Row)
    (row : Row) (rest : list Row) :
  pack_samples self = true ->
  dataset self = row :: rest ->
  debug_chat_template self row = slice_to (tokens (chat_tokenizer self row)) (-1) ->
  well_formed (chat_tokenizer self row) ->
  over_length self (chat_tokenizer self row) ->
  exists st' w,
    gen_step self (iter_start self) = Ok (st', Yield (PackedItem w))
    /\ Packed.input_ids w = []
    /\ bufs st' = reset_buffers (chat_tokenizer self row).
Proof.
  intros Hpack Hds Hdbg Hwf Hlong.
  assert (Hstep : pack_sample self (bufs (iter_start self)) (chat_tokenizer self row)
                  = Ok (reset_buffers (chat_tokenizer self row),
                        Some {| sample_tokens := []; sample_completitions := [];
                                sample_lengths := [] |})).
  { apply pack_sample_overflows; auto using buffer_inv_empty.
    cbn [iter_start bufs empty_buffers buffer_tokens].
    change (len (@nil Z)) with 0. red in Hlong. lia. }
  rewrite (gen_step_packs self (iter_start self) row rest _ _ Hpack Hds Hdbg Hstep).
  eexists; eexists. split; [reflexivity|]. split; reflexivity.
Qed.

Lemma first_sample_over_length_yields_empty_window_witness :
  exists st' w,
    gen_step long_then_short (iter_start long_then_short) = Ok (st', Yield (PackedItem w))
    /\ Packed.input_ids w = []
    /\ bufs st' = reset_buffers (sample_of 5 7).
Proof.
  apply (first_sample_over_length_yields_empty_window long_then_short
           (sample_of 5 7) [sample_of 1 9]); reflexivity.
Defined.

(** C3, as the code has it: a sample longer than sequence_length + 1 is not
    deferred.  Its arrival pushes out what was buffered and leaves it alone in
    the buffers; the arrival of the next sample, when that one is not empty,
    makes the step emit it alone and whole, as a window of its own length,
    which is more than sequence_length + 1. *)
Theorem over_length_sample_emitted_alone {Row} (self : ChatDataset Row)
    (b : Buffers) (s s' : Sample) :
  0 <= sequence_length self ->
  buffer_inv b -> well_formed s -> well_formed s' ->
  over_length self s ->
  tokens s' <> [] ->
  exists p p',
    pack_sample self b s = Ok (reset_buffers s, Some p)
    /\ Packed.input_ids (packed_window self p) = buffer_tokens b
    /\ pack_sample self (reset_buffers s) s' = Ok (reset_buffers s', Some p')
    /\ Packed.input_ids (packed_window self p') = tokens s
    /\ sample_lengths p' = [len (tokens s)]
    /\ len (Packed.input_ids (packed_window self p')) > sequence_length self + 1.
Proof.
  intros Hseq Hinv Hs Hs' Hlong Hne. red in Hlong.
  assert (Hs_ne : tokens s <> []).
  { intros E. rewrite E in Hlong. change (len (@nil Z)) with 0 in Hlong. lia. }
  eexists; eexists. split; [|split; [|split]].
  - apply pack_sample_overflows; auto.
    pose proof (len_nonneg (buffer_tokens b)). lia.
  - reflexivity.
  - apply pack_sample_overflows; auto using reset_buffers_inv.
    cbn [reset_buffers buffer_tokens]. pose proof (len_nonneg (tokens s')). lia.
  - cbn [packed_window Packed.input_ids sample_tokens sample_lengths
         reset_buffers buffer_tokens buffer_lengths].
    repeat split. lia.
Qed.

Lemma over_length_sample_emitted_alone_witness :
  exists p p',
    pack_sample long_then_short empty_buffers (sample_of 5 7)
    = Ok (reset_buffers (sample_of 5 7), Some p)
    /\ Packed.input_ids (packed_window long_then_short p) = []
    /\ pack_sample long_then_short (reset_buffers (sample_of 5 7)) (sample_of 1 9)
       = Ok (reset_buffers (sample_of 1 9), Some p')
    /\ Packed.input_ids (packed_window long_then_short p') = [7; 7; 7; 7; 7]
    /\ sample_lengths p' = [5]
    /\ len (Packed.input_ids (packed_window long_then_short p')) > 2 + 1.
Proof.
  apply (over_length_sample_emitted_alone long_then_short empty_buffers
           (sample_of 5 7) (sample_of 1 9));
    try reflexivity; try discriminate.
  apply buffer_inv_empty.
Defined.

(** The run of [long_then_short] over its two records. *)
Lemma long_then_short_run :
  exists st,
    Steps long_then_short (iter_start long_then_short)
      [Yield (PackedItem {| Packed.input_ids := [];
                            Packed.label_mask := [];
                            Packed.position_ids := [] |});
       Yield (PackedItem {| Packed.input_ids := [7; 7; 7; 7; 7];
                            Packed.label_mask := [1; 1; 1; 1; 1];
                            Packed.position_ids := [0; 1; 2; 3; 4] |})] st.
Proof.
  eexists. apply (gen_run_Steps _ 2). vm_compute. reflexivity.
Qed.

(** C3, as stated, fails: with windows of at most 3 tokens, the sample of 5
    tokens is yielded alone as soon as the next sample has come. *)
Lemma over_length_sample_not_deferred :
  over_length long_then_short (sample_of 5 7)
  /\ In (sample_of 5 7) (dataset long_then_short)
  /\ ~ never_emitted_alone long_then_short (sample_of 5 7).
Proof.
  split; [reflexivity|]. split; [now left|].
  intros Hnever. destruct long_then_short_run as [st Hrun].
  apply (Hnever _ st {| Packed.input_ids := [7; 7; 7; 7; 7];
                        Packed.label_mask := [1; 1; 1; 1; 1];
                        Packed.position_ids := [0; 1; 2; 3; 4] |} Hrun).
  - simpl. right. left. reflexivity.
  - reflexivity.
Qed.

(** Between two turns the buffers hold at most a window, or one sample, or
    nothing at all. *)
Lemma buffer_window_sample_or_empty {Row} (self : ChatDataset Row)
    (evs : list Event) (st : IterState Row) :
  Steps self (iter_start self) evs st ->
  len (buffer_tokens (bufs st)) <= sequence_length self + 1
  \/ (exists row, In row (dataset self)
        /\ buffer_tokens (bufs st) = tokens (chat_tokenizer self row))
  \/ buffer_tokens (bufs st) = [].
Proof.
  intros Hrun.
  apply (Steps_invariant self
           (fun st => incl (pending st) (dataset self)
                      /\ (len (buffer_tokens (bufs st)) <= sequence_length self + 1
                          \/ (exists row, In row (dataset self)
                                /\ buffer_tokens (bufs st) = tokens (chat_tokenizer self row))
                          \/ buffer_tokens (bufs st) = []))
           (fun _ => True)) in Hrun as [[_ H] _]; auto.
  - intros s s' ev [Hincl Hb] Hstep. split; [|exact I].
    apply gen_step_cases in Hstep
      as [(_ & _ & -> & _ & ->)
         |[(row & Hp & _ & _ & o & Hk & _)|(row & Hp & _ & -> & _)]].
    + split; [apply incl_refl | assumption].
    + assert (In row (dataset self)) as Hrow by (apply Hincl; rewrite Hp; now left).
      split; [intros x Hx; apply Hincl; rewrite Hp; now right|].
      apply pack_sample_cases in Hk as [(Hle & -> & _)|(_ & -> & _)].
      * left. cbn [extend_buffers buffer_tokens]. rewrite len_app. lia.
      * right. left. now exists row.
    + split; [intros x Hx; apply Hincl; rewrite Hp; now right | assumption].
  - split; [apply incl_refl|]. right. right. reflexivity.
Qed.

(** C1, as the code has it: in every window that a run of the packing path
    yields, input_ids, label_mask and position_ids have the same length (the
    label policy returning one label per token and the position policy one id
    per recorded token); that length is at most sequence_length + 1, unless
    the window is exactly one sample of the dataset that is itself longer
    than sequence_length + 1 (or, when sequence_length + 1 is negative, the
    window is empty).  In particular the bound holds of every window when no
    sample of the dataset is longer than sequence_length + 1. *)
Theorem window_lengths {Row} (self : ChatDataset Row)
    (evs : list Event) (st : IterState Row) (w : Packed.t) :
  labels_keep_length self ->
  position_ids_cover self ->
  Steps self (iter_start self) evs st ->
  In w (windows evs) ->
  length (Packed.input_ids w) = length (Packed.label_mask w)
  /\ length (Packed.label_mask w) = length (Packed.position_ids w)
  /\ (len (Packed.input_ids w) <= sequence_length self + 1
      \/ (exists row, In row (dataset self)
            /\ Packed.input_ids w = tokens (chat_tokenizer self row)
            /\ over_length self (chat_tokenizer self row))
      \/ (Packed.input_ids w = [] /\ sequence_length self + 1 < 0))
  /\ (samples_fit self -> len (Packed.input_ids w) <= sequence_length self + 1).
Proof.
  intros Hlab Hpos Hrun Hin.
  destruct (windows_yielded self _ _ _ _ Hrun Hin) as (evs1 & st1 & st2 & Hpre & Hy).
  pose proof (reachable_inv_run self _ _ Hpre) as Hinv.
  destruct (yield_from_reachable self _ _ _ Hinv Hy)
    as (p & row & -> & Ht & Hl & H1 & H2 & Hp & Hb).
  destruct Hinv as (_ & Hnn & Hincl).
  cbn [packed_window Packed.input_ids Packed.label_mask Packed.position_ids].
  assert (Hlen : length (Packed.label_mask (packed_window self p)) = length (sample_tokens p)).
  { cbn [packed_window Packed.label_mask]. rewrite length_ones_and_zeros.
    apply Hlab. now apply len_eq_length. }
  cbn [packed_window Packed.label_mask] in Hlen.
  split; [now symmetry|]. split; [|split].
  - rewrite Hlen. apply len_eq_length.
    rewrite Hpos by (rewrite Hl; assumption). lia.
  - rewrite Ht.
    destruct (Z_le_gt_dec (len (buffer_tokens (bufs st1))) (sequence_length self + 1))
      as [Hle|Hgt]; [now left|].
    destruct (buffer_window_sample_or_empty self _ _ Hpre) as [Hle|[(r & Hr & Hb1)|Hnil]].
    + lia.
    + right. left. exists r. split; [assumption|]. split; [assumption|].
      unfold over_length. rewrite <- Hb1. assumption.
    + right. right. split; [assumption|].
      rewrite Hnil in Hgt. change (len (@nil Z)) with 0 in Hgt. lia.
  - intros Hfit. rewrite Ht.
    pose proof (buffer_fits_run self _ _ Hfit Hpre) as Hb1.
    assert (In row (dataset self)) as Hrow by (apply Hincl; rewrite Hp; now left).
    pose proof (Hfit row Hrow). pose proof (len_nonneg (tokens (chat_tokenizer self row))).
    lia.
Qed.

(** The policies that [__init__] picks meet their length contracts. *)
Lemma len_range (n : Z) : 0 <= n -> len (range n) = n.
Proof. intros Hn. unfold len. rewrite length_range. lia. Qed.

Lemma len_build_position_ids (ls : list Z) (n : Z) :
  Forall (fun l => 0 <= l) ls -> len (Collator.build_position_ids ls n) = sum ls.
Proof.
  unfold Collator.build_position_ids.
  induction 1 as [|l ls Hl _ IH]; [reflexivity|].
  cbn [map concat]. rewrite len_app, len_range, IH, sum_cons by assumption. reflexivity.
Qed.

Lemma init_labels_keep_length {Row} (rows : list Row) tokenizer template pad n
    (completions_only cross pack : bool) (sp : Z) :
  labels_keep_length (init rows tokenizer template pad n completions_only cross pack sp).
Proof.
  intros t c Hlen. cbn [init create_labels]. destruct completions_only.
  - unfold Collator.build_labels_completions_only. now symmetry.
  - unfold Collator.build_labels. apply length_map.
Qed.

Lemma init_position_ids_cover {Row} (rows : list Row) tokenizer template pad n
    (completions_only cross pack : bool) (sp : Z) :
  position_ids_cover (init rows tokenizer template pad n completions_only cross pack sp).
Proof.
  intros ls Hls. cbn [init create_position_ids sequence_length]. destruct cross.
  - now apply len_build_position_ids.
  - unfold Collator.build_position_ids_dummy. apply len_range. now apply sum_nonneg.
Qed.

Lemma overflow_scenario_fits : samples_fit overflow_scenario.
Proof.
  intros row [<-|[<-|[<-|[]]]]; vm_compute; discriminate.
Qed.

Lemma window_lengths_witness :
  let w := {| Packed.input_ids := repeat 1 100%nat ++ repeat 2 50%nat;
              Packed.label_mask := repeat 1 150%nat;
              Packed.position_ids := range 100 ++ range 50 |} in
  samples_fit overflow_scenario
  /\ length (Packed.input_ids w) = length (Packed.label_mask w)
  /\ length (Packed.label_mask w) = length (Packed.position_ids w)
  /\ (len (Packed.input_ids w) <= sequence_length overflow_scenario + 1
      \/ (exists row, In row (dataset overflow_scenario)
            /\ Packed.input_ids w = tokens (chat_tokenizer overflow_scenario row)
            /\ over_length overflow_scenario (chat_tokenizer overflow_scenario row))
      \/ (Packed.input_ids w = [] /\ sequence_length overflow_scenario + 1 < 0))
  /\ (samples_fit overflow_scenario ->
      len (Packed.input_ids w) <= sequence_length overflow_scenario + 1).
Proof.
  intros w. split; [exact overflow_scenario_fits|].
  apply (window_lengths overflow_scenario [Quiet; Quiet; Yield (PackedItem w)]
           {| bufs := reset_buffers (sample_of 80 3); num_samples := 0; pending := [] |} w).
  - apply init_labels_keep_length.
  - apply init_position_ids_cover.
  - apply (gen_run_Steps _ 3). vm_compute. reflexivity.
  - simpl. left. reflexivity.
Defined.

(** C1, as stated, fails: with sequence_length = 2 the run of [long_then_short]
    yields a window of 5 tokens, although both policies keep their contracts. *)
Lemma window_longer_than_sequence_length :
  labels_keep_length long_then_short
  /\ position_ids_cover long_then_short
  /\ exists evs st w,
       Steps long_then_short (iter_start long_then_short) evs st
       /\ In w (windows evs)
       /\ ~ len (Packed.input_ids w) <= sequence_length long_then_short + 1.
Proof.
  split; [apply init_labels_keep_length|]. split; [apply init_position_ids_cover|].
  destruct long_then_short_run as [st Hrun].
  eexists; exists st; eexists. split; [exact Hrun|]. split.
  - simpl. right. left. reflexivity.
  - vm_compute. intros H. now apply H.
Qed.

(** C5: when the tokenizer returns one completion flag per token, the
    buffers satisfy sum(buffer_lengths) == len(buffer_tokens) ==
    len(buffer_is_completition) in every state that a run reaches between two
    turns, and again right after the next sample has been appended. *)
Theorem buffer_invariant {Row} (self : ChatDataset Row)
    (evs : list Event) (st : IterState Row) :
  (forall row, In row (dataset self) -> well_formed (chat_tokenizer self row)) ->
  Steps self (iter_start self) evs st ->
  buffer_inv (bufs st)
  /\ forall row rest, pending st = row :: rest ->
       buffer_inv (extend_buffers (bufs st) (chat_tokenizer self row)).
Proof.
  intros Hwf Hrun.
  apply (Steps_invariant self
           (fun st => incl (pending st) (dataset self) /\ buffer_inv (bufs st))
           (fun _ => True)) in Hrun as [[Hincl Hinv] _].
  - split; [assumption|]. intros row rest Hp.
    apply extend_buffers_inv; [assumption|]. apply Hwf, Hincl. rewrite Hp. now left.
  - intros s s' ev [Hincl Hinv] Hstep. split; [|exact I].
    apply gen_step_cases in Hstep
      as [(_ & _ & -> & _ & ->)
         |[(row & Hp & _ & _ & o & Hpack & _)|(row & Hp & _ & -> & _)]].
    + split; [apply incl_refl | assumption].
    + assert (well_formed (chat_tokenizer self row)) as Hrow
        by (apply Hwf, Hincl; rewrite Hp; now left).
      split; [intros x Hx; apply Hincl; rewrite Hp; now right|].
      apply pack_sample_cases in Hpack as [(_ & -> & _)|(_ & -> & _)].
      * now apply extend_buffers_inv.
      * now apply reset_buffers_inv.
    + split; [intros x Hx; apply Hincl; rewrite Hp; now right | assumption].
  - split; [apply incl_refl | apply buffer_inv_empty].
Qed.

Lemma overflow_scenario_well_formed :
  forall row, In row (dataset overflow_scenario) -> well_formed (chat_tokenizer overflow_scenario row).
Proof.
  intros row [<-|[<-|[<-|[]]]]; reflexivity.
Qed.

Lemma buffer_invariant_witness :
  let st := {| bufs := extend_buffers empty_buffers (sample_of 100 1);
               num_samples := 0;
               pending := [sample_of 50 2; sample_of 80 3] |} in
  buffer_inv (bufs st)
  /\ forall row rest, pending st = row :: rest ->
       buffer_inv (extend_buffers (bufs st) (chat_tokenizer overflow_scenario row)).
Proof.
  intros st.
  apply (buffer_invariant overflow_scenario [Quiet] st).
  - exact overflow_scenario_well_formed.
  - apply (gen_run_Steps _ 1). vm_compute. reflexivity.
Defined.

(** ** The non-packing path *)

Lemma len_mul_singleton {A} (x : A) (n : Z) : 0 <= n -> len (mul [x] n) = n.
Proof. intros Hn. unfold len. rewrite length_mul_singleton. lia. Qed.

Lemma sp_chunks_of_pos (sp_ranks_size : Z) : 1 <= sp_chunks_of sp_ranks_size.
Proof.
  unfold sp_chunks_of. destruct (Z.gtb_spec sp_ranks_size 1); lia.
Qed.

(** The next multiple of [c] from [n] on, as lines 146-148 reach it. *)
Lemma padded_length_multiple (n c : Z) :
  0 < c -> n mod c <> 0 -> (n + (c - n mod c)) mod c = 0.
Proof.
  intros Hc _. rewrite (Z.div_mod n c) at 1 by lia.
  replace (c * (n / c) + n mod c + (c - n mod c)) with ((n / c + 1) * c) by lia.
  apply Z.mod_mul. lia.
Qed.

(** C7: in the non-packing path, with sp_chunks = 2 * sp_ranks_size when
    sp_ranks_size > 1 and 1 otherwise, and a label policy that returns one
    label per token, the item is yielded, its input_ids, input_mask and
    label_mask have the same length, and that length is the number m of
    tokens padded up to the next multiple of sp_chunks, plus one when
    sp_chunks > 1. *)
Theorem non_packing_lengths {Row} (self : ChatDataset Row) (sp_ranks_size : Z) (s : Sample) :
  sp_chunks self = sp_chunks_of sp_ranks_size ->
  length (create_labels self (tokens s) (is_completition s)) = length (tokens s) ->
  exists d m,
    pad_sample self s = Ok d
    /\ length (Padded.input_ids d) = length (Padded.input_mask d)
    /\ length (Padded.input_mask d) = length (Padded.label_mask d)
    /\ m mod sp_chunks self = 0
    /\ len (tokens s) <= m < len (tokens s) + sp_chunks self
    /\ len (Padded.input_ids d) = m + (if sp_chunks self >? 1 then 1 else 0).
Proof.
  intros Hc Hlab.
  pose proof (sp_chunks_of_pos sp_ranks_size) as Hpos. rewrite <- Hc in Hpos.
  pose proof (len_nonneg (tokens s)) as Hn.
  pose proof (Z.mod_pos_bound (len (tokens s)) (sp_chunks self) ltac:(lia)) as Hrem.
  apply len_eq_length in Hlab.
  unfold pad_sample.
  destruct (Z.eqb_spec (sp_chunks self) 0) as [?|_]; [lia|].
  destruct (Z.eqb_spec (len (tokens s) mod sp_chunks self) 0) as [Hz|Hnz];
    destruct (Z.gtb_spec (sp_chunks self) 1) as [Hgt|Hle];
    cbv beta iota zeta; cbn [negb].
  - (* already a multiple, one more position for the shift *)
    assert (E1 : (len (tokens s ++ [pad_token_id self])
                  =? len (mul [1] (len (tokens s)) ++ [0])) = true)
      by (apply Z.eqb_eq; rewrite !len_app, len_mul_singleton by lia; reflexivity).
    assert (E2 : (len (mul [1] (len (tokens s)) ++ [0])
                  =? len (create_labels self (tokens s) (is_completition s) ++ [false]))
                 = true)
      by (apply Z.eqb_eq; rewrite !len_app, len_mul_singleton, Hlab by lia; reflexivity).
    rewrite E1, E2. cbn [negb]. apply Z.eqb_eq in E1, E2.
    eexists; exists (len (tokens s)). split; [reflexivity|].
    cbn [Padded.input_ids Padded.input_mask Padded.label_mask].
    rewrite length_ones_and_zeros.
    repeat split; try (apply len_eq_length; assumption); try lia.
    rewrite len_app. reflexivity.
  - (* already a multiple, nothing is added *)
    assert (E1 : (len (tokens s) =? len (mul [1] (len (tokens s)))) = true)
      by (apply Z.eqb_eq; rewrite len_mul_singleton by lia; reflexivity).
    assert (E2 : (len (mul [1] (len (tokens s)))
                  =? len (create_labels self (tokens s) (is_completition s))) = true)
      by (apply Z.eqb_eq; rewrite len_mul_singleton, Hlab by lia; reflexivity).
    rewrite E1, E2. cbn [negb]. apply Z.eqb_eq in E1, E2.
    eexists; exists (len (tokens s)). split; [reflexivity|].
    cbn [Padded.input_ids Padded.input_mask Padded.label_mask].
    rewrite length_ones_and_zeros.
    repeat split; try (apply len_eq_length; assumption); try lia.
  - (* padded to the next multiple, one more position for the shift *)
    set (pad_amount := sp_chunks self - len (tokens s) mod sp_chunks self).
    assert (Hpad : 0 <= pad_amount) by (unfold pad_amount; lia).
    assert (E1 : (len ((tokens s ++ mul [pad_token_id self] pad_amount) ++ [pad_token_id self])
                  =? len ((mul [1] (len (tokens s)) ++ mul [0] pad_amount) ++ [0])) = true)
      by (apply Z.eqb_eq; rewrite !len_app, !len_mul_singleton by lia; reflexivity).
    assert (E2 : (len ((mul [1] (len (tokens s)) ++ mul [0] pad_amount) ++ [0])
                  =? len ((create_labels self (tokens s) (is_completition s)
                           ++ mul [false] pad_amount) ++ [false])) = true)
      by (apply Z.eqb_eq; rewrite !len_app, !len_mul_singleton, Hlab by lia; reflexivity).
    rewrite E1, E2. cbn [negb]. apply Z.eqb_eq in E1, E2.
    eexists; exists (len (tokens s) + pad_amount). split; [reflexivity|].
    cbn [Padded.input_ids Padded.input_mask Padded.label_mask].
    rewrite length_ones_and_zeros.
    repeat split; try (apply len_eq_length; assumption); try (unfold pad_amount; lia).
    + apply padded_length_multiple; [lia | assumption].
    + rewrite !len_app, len_mul_singleton by lia. reflexivity.
  - (* sp_chunks is 1: the remainder is 0 *)
    lia.
Qed.

Lemma non_packing_lengths_witness :
  exists d m,
    pad_sample five_tokens_two_ranks (sample_of 5 7) = Ok d
    /\ length (Padded.input_ids d) = length (Padded.input_mask d)
    /\ length (Padded.input_mask d) = length (Padded.label_mask d)
    /\ m mod 4 = 0
    /\ 5 <= m < 5 + 4
    /\ len (Padded.input_ids d) = m + 1.
Proof.
  apply (non_packing_lengths five_tokens_two_ranks 2 (sample_of 5 7)); reflexivity.
Defined.

(** The example of the claim: 5 tokens on 2 sequence-parallel ranks give 9
    positions, of which the last 4 are padding. *)
Example five_tokens_two_ranks_item :
  pad_sample five_tokens_two_ranks (sample_of 5 7)
  = Ok {| Padded.input_ids := [7; 7; 7; 7; 7; 0; 0; 0; 0];
          Padded.input_mask := [1; 1; 1; 1; 1; 0; 0; 0; 0];
          Padded.label_mask := [1; 1; 1; 1; 1; 0; 0; 0; 0] |}.
Proof. reflexivity. Qed.

(** ** Exhaustion of the dataset *)

(** As long as the pass lasts, every turn pulls one record. *)
Lemma pending_after {Row} (self : ChatDataset Row) (st st' : IterState Row) (evs : list Event) :
  Steps self st evs st' ->
  (length evs <= length (pending st))%nat ->
  pending st' = skipn (length evs) (pending st).
Proof.
  induction 1 as [st|st st1 st2 ev evs H1 _ IH]; intros Hlen.
  - reflexivity.
  - simpl in Hlen.
    apply gen_step_cases in H1
      as [(Hp & _)|[(row & Hp & _)|(row & Hp & _)]];
      rewrite Hp in Hlen |- *; simpl in Hlen; try lia;
      simpl; apply IH; lia.
Qed.

Lemma skipn_cons_next {A} (l : list A) (i : nat) (x : A) (r : list A) :
  skipn i l = x :: r -> r = skipn (S i) l /\ (i < length l)%nat.
Proof.
  revert i. induction l as [|y l IH]; intros i H.
  - destruct i; discriminate.
  - destruct i as [|i].
    + injection H as _ <-. split; [reflexivity | simpl; lia].
    + simpl in H. apply IH in H as [-> Hlt]. split; [reflexivity | simpl; lia].
Qed.

Lemma skipn_nil_past {A} (l : list A) (i : nat) :
  (i <= length l)%nat -> skipn i l = [] -> i = length l.
Proof.
  intros Hle H. pose proof (length_skipn i l) as Hlen. rewrite H in Hlen. simpl in Hlen. lia.
Qed.

(** Where the iterator stands after some turns, from a known position. *)
Lemma pending_position {Row} (self : ChatDataset Row)
    (st st' : IterState Row) (evs : list Event) :
  Steps self st evs st' ->
  forall i : nat,
    (i <= length (dataset self))%nat ->
    pending st = skipn i (dataset self) ->
    pending st'
    = skipn ((i + length evs) mod (length (dataset self) + 1)) (dataset self).
Proof.
  induction 1 as [st|st st1 st2 ev evs H1 _ IH]; intros i Hi Hp.
  - cbn [length]. rewrite Nat.add_0_r, Nat.mod_small by lia. assumption.
  - apply gen_step_cases in H1
      as [(Hnil & _ & _ & _ & Hd)|[(row & Hrow & _)|(row & Hrow & _)]].
    + rewrite Hp in Hnil. apply skipn_nil_past in Hnil; [|assumption]. subst i.
      rewrite (IH 0%nat) by (auto; lia). cbn [length].
      replace (length (dataset self) + S (length evs))%nat
        with (length evs + 1 * (length (dataset self) + 1))%nat by lia.
      now rewrite Nat.Div0.mod_add.
    + rewrite Hp in Hrow. apply skipn_cons_next in Hrow as [Hnext Hlt].
      rewrite (IH (S i)) by (auto; lia). cbn [length]. f_equal. f_equal. lia.
    + rewrite Hp in Hrow. apply skipn_cons_next in Hrow as [Hnext Hlt].
      rewrite (IH (S i)) by (auto; lia). cbn [length]. f_equal. f_equal. lia.
Qed.

(** C8: the source is exhausted exactly when the turns of the current pass
    have pulled all its records, at whatever pass of the run; the next turn
    then prints the re-loop message, leaves the three buffers (and the
    counter) as they are and opens the dataset again, so that the turn after
    it handles the first record of the dataset with the buffers of before
    the restart. *)
Theorem restart_keeps_buffers {Row} (self : ChatDataset Row)
    (evs : list Event) (st : IterState Row) :
  Steps self (iter_start self) evs st ->
  (pending st = []
   <-> (length evs mod (length (dataset self) + 1))%nat = length (dataset self))
  /\ (pending st = [] ->
      exists st',
        gen_step self st = Ok (st', Relooped)
        /\ bufs st' = bufs st
        /\ num_samples st' = num_samples st
        /\ pending st' = dataset self
        /\ forall row rest, dataset self = row :: rest ->
             gen_step self st' = loop_body self (bufs st) (num_samples st) rest row).
Proof.
  intros Hrun. split.
  - pose proof (pending_position self _ _ _ Hrun 0%nat ltac:(lia) eq_refl) as Hpos.
    cbn [Nat.add] in Hpos.
    pose proof (Nat.mod_upper_bound (length evs) (length (dataset self) + 1) ltac:(lia)) as Hlt.
    rewrite Hpos. split.
    + intros Hnil. apply skipn_nil_past in Hnil; [assumption | lia].
    + intros ->. apply skipn_all.
  - intros Hp.
    exists {| bufs := bufs st; num_samples := num_samples st; pending := dataset self |}.
    unfold gen_step at 1. rewrite Hp. repeat split.
    intros row rest Hds. unfold gen_step. cbn [pending bufs num_samples].
    rewrite Hds. reflexivity.
Qed.

Lemma restart_keeps_buffers_witness :
  let w12 := {| Packed.input_ids := repeat 1 100%nat ++ repeat 2 50%nat;
                Packed.label_mask := repeat 1 150%nat;
                Packed.position_ids := range 100 ++ range 50 |} in
  let w3 := {| Packed.input_ids := repeat 3 80%nat;
               Packed.label_mask := repeat 1 80%nat;
               Packed.position_ids := range 80 |} in
  let evs := [Quiet; Quiet; Yield (PackedItem w12); Relooped;
              Yield (PackedItem w3); Quiet; Yield (PackedItem w12)] in
  let st : IterState Sample :=
    {| bufs := reset_buffers (sample_of 80 3); num_samples := 0; pending := [] |} in
  (pending st = [] <-> (length evs mod (3 + 1))%nat = 3%nat)
  /\ (pending st = [] ->
      exists st',
        gen_step overflow_scenario st = Ok (st', Relooped)
        /\ bufs st' = reset_buffers (sample_of 80 3)
        /\ num_samples st' = 0
        /\ pending st' = [sample_of 100 1; sample_of 50 2; sample_of 80 3]
        /\ forall row rest, dataset overflow_scenario = row :: rest ->
             gen_step overflow_scenario st'
             = loop_body overflow_scenario (reset_buffers (sample_of 80 3)) 0 rest row).
Proof.
  intros w12 w3 evs st.
  apply (restart_keeps_buffers overflow_scenario evs st).
  apply (gen_run_Steps _ 7). vm_compute. reflexivity.
Defined.

(** The turn after the restart of [overflow_scenario]: the first record comes
    again and, with 80 tokens buffered, pushes the third sample out. *)
Example overflow_scenario_second_pass :
  exists st,
    gen_run overflow_scenario 5 (iter_start overflow_scenario)
    = ([Quiet; Quiet;
        Yield (PackedItem {| Packed.input_ids := repeat 1 100%nat ++ repeat 2 50%nat;
                             Packed.label_mask := repeat 1 150%nat;
                             Packed.position_ids := range 100 ++ range 50 |});
        Relooped;
        Yield (PackedItem {| Packed.input_ids := repeat 3 80%nat;
                             Packed.label_mask := repeat 1 80%nat;
                             Packed.position_ids := range 80 |})], Ok st)
    /\ bufs st = reset_buffers (sample_of 100 1).
Proof. eexists. split; vm_compute; reflexivity. Qed.

(** ** Two runs over one stream of samples *)

Lemma windows_app (evs1 evs2 : list Event) :
  windows (evs1 ++ evs2) = windows evs1 ++ windows evs2.
Proof.
  induction evs1 as [|[[w|d]| |] evs1 IH]; simpl; congruence.
Qed.

Section TwoRuns.

Context {Row1 Row2 : Type}.
Variable self1 : ChatDataset Row1.
Variable self2 : ChatDataset Row2.

Hypothesis Hpack1 : pack_samples self1 = true.
Hypothesis Hpack2 : pack_samples self2 = true.
Hypothesis Hseq : sequence_length self1 = sequence_length self2.
Hypothesis Hlab : forall t c, create_labels self1 t c = create_labels self2 t c.
Hypothesis Hpos : forall ls n, create_position_ids self1 ls n = create_position_ids self2 ls n.
Hypothesis Hds :
  map (chat_tokenizer self1) (dataset self1) = map (chat_tokenizer self2) (dataset self2).

Lemma pack_sample_same (b : Buffers) (s : Sample) :
  pack_sample self1 b s = pack_sample self2 b s.
Proof. unfold pack_sample. now rewrite Hseq. Qed.

Lemma packed_window_same (p : Popped) : packed_window self1 p = packed_window self2 p.
Proof. unfold packed_window. now rewrite Hlab, Hpos, Hseq. Qed.

(** Turn by turn, the two generators show the same event and stay at the
    same point of the stream. *)
Lemma same_stream_step st1 st2 st1' st2' ev1 ev2 :
  same_stream self1 self2 st1 st2 ->
  gen_step self1 st1 = Ok (st1', ev1) ->
  gen_step self2 st2 = Ok (st2', ev2) ->
  ev1 = ev2 /\ same_stream self1 self2 st1' st2'.
Proof.
  intros [Hb Hp] H1 H2.
  apply gen_step_cases in H1
    as [(Hp1 & -> & Hb1 & _ & Hd1)
       |[(r1 & Hp1 & _ & _ & o1 & Hk1 & ->)|(r1 & _ & Hno & _)]];
    [| |congruence];
  apply gen_step_cases in H2
    as [(Hp2 & -> & Hb2 & _ & Hd2)
       |[(r2 & Hp2 & _ & _ & o2 & Hk2 & ->)|(r2 & _ & Hno & _)]];
    try congruence;
    rewrite Hp1, Hp2 in Hp; try discriminate.
  - split; [reflexivity|]. split; [congruence|]. now rewrite Hd1, Hd2.
  - simpl in Hp. injection Hp as Hr Hrest.
    rewrite pack_sample_same, Hb, Hr, Hk2 in Hk1. injection Hk1 as Hb' ->.
    split.
    + destruct o1; [now rewrite packed_window_same | reflexivity].
    + split; [now symmetry | assumption].
Qed.

(** Of two runs from the same point, the shorter shows the first events of
    the longer. *)
Lemma same_stream_run st1 evs1 st1' :
  Steps self1 st1 evs1 st1' ->
  forall st2 evs2 st2',
    Steps self2 st2 evs2 st2' ->
    same_stream self1 self2 st1 st2 ->
    (length evs1 <= length evs2)%nat ->
    exists more, evs2 = evs1 ++ more.
Proof.
  induction 1 as [st1|st1 sa sb ev evs H1 _ IH]; intros st2 evs2 st2' Hrun2 Hsim Hlen.
  - now exists evs2.
  - destruct Hrun2 as [st2|st2 ta tb ev' evs' H2 Hrest]; [simpl in Hlen; lia|].
    destruct (same_stream_step _ _ _ _ _ _ Hsim H1 H2) as [<- Hsim'].
    simpl in Hlen. destruct (IH _ _ _ Hrest Hsim' ltac:(lia)) as [more ->].
    now exists more.
Qed.

End TwoRuns.

(** The windows of a run that another run extends are the first windows of
    that run. *)
Lemma windows_prefix_nth (evs more : list Event) (k : nat) (w w' : Packed.t) :
  nth_error (windows evs) k = Some w ->
  nth_error (windows (evs ++ more)) k = Some w' ->
  w = w'.
Proof.
  intros H1 H2. rewrite windows_app, nth_error_app1 in H2.
  - congruence.
  - apply nth_error_Some. congruence.
Qed.

(** C9: two runs of the packing path with the same sequence_length, the same
    label and position policies and the same stream of tokenized samples
    yield the same windows in the same order: after as many turns they have
    yielded the same list of windows, and at any time the k-th window of one
    is the k-th window of the other, with its input_ids, label_mask and
    position_ids. *)
Theorem packing_is_deterministic {Row1 Row2}
    (self1 : ChatDataset Row1) (self2 : ChatDataset Row2)
    (evs1 evs2 : list Event) (st1 : IterState Row1) (st2 : IterState Row2) :
  pack_samples self1 = true ->
  pack_samples self2 = true ->
  sequence_length self1 = sequence_length self2 ->
  (forall t c, create_labels self1 t c = create_labels self2 t c) ->
  (forall ls n, create_position_ids self1 ls n = create_position_ids self2 ls n) ->
  map (chat_tokenizer self1) (dataset self1) = map (chat_tokenizer self2) (dataset self2) ->
  Steps self1 (iter_start self1) evs1 st1 ->
  Steps self2 (iter_start self2) evs2 st2 ->
  (length evs1 = length evs2 -> windows evs1 = windows evs2)
  /\ forall k w1 w2,
       nth_error (windows evs1) k = Some w1 ->
       nth_error (windows evs2) k = Some w2 ->
       w1 = w2.
Proof.
  intros Hpack1 Hpack2 Hseq Hlab Hpos Hds Hrun1 Hrun2.
  assert (Hstart12 : same_stream self1 self2 (iter_start self1) (iter_start self2))
    by (split; [reflexivity | exact Hds]).
  assert (Hstart21 : same_stream self2 self1 (iter_start self2) (iter_start self1))
    by (split; [reflexivity | now symmetry]).
  assert (Hcmp : (exists more, evs2 = evs1 ++ more) \/ (exists more, evs1 = evs2 ++ more)).
  { destruct (Nat.le_ge_cases (length evs1) (length evs2)) as [Hle|Hge].
    - left. eapply (same_stream_run self1 self2); eauto.
    - right. eapply (same_stream_run self2 self1); eauto. }
  split.
  - intros Hlen. destruct Hcmp as [[more E]|[more E]];
      rewrite E in Hlen; rewrite length_app in Hlen;
      (destruct more; [|simpl in Hlen; lia]);
      rewrite app_nil_r in E; now rewrite E.
  - intros k w1 w2 H1 H2. destruct Hcmp as [[more ->]|[more ->]].
    + eapply windows_prefix_nth; eassumption.
    + symmetry. eapply windows_prefix_nth; eassumption.
Qed.

Lemma packing_is_deterministic_witness :
  let w := {| Packed.input_ids := repeat 1 100%nat ++ repeat 2 50%nat;
              Packed.label_mask := repeat 1 150%nat;
              Packed.position_ids := range 100 ++ range 50 |} in
  let evs := [Quiet; Quiet; Yield (PackedItem w)] in
  (length evs = length evs -> windows evs = windows evs)
  /\ forall k w1 w2,
       nth_error (windows evs) k = Some w1 ->
       nth_error (windows evs) k = Some w2 ->
       w1 = w2.
Proof.
  intros w evs.
  apply (packing_is_deterministic overflow_scenario overflow_scenario_raw evs evs
           {| bufs := reset_buffers (sample_of 80 3); num_samples := 0; pending := [] |}
           {| bufs := reset_buffers (sample_of 80 3); num_samples := 0; pending := [] |});
    try reflexivity.
  - apply (gen_run_Steps _ 3). vm_compute. reflexivity.
  - apply (gen_run_Steps _ 3). vm_compute. reflexivity.
Defined.

(** ** The policies on the examples of the specification *)

Example completions_only_mask :
  ones_and_zeros (Collator.build_labels_completions_only [10; 11; 12; 13]
                    [false; false; true; true]) = [0; 0; 1; 1].
Proof. reflexivity. Qed.

Example full_mask :
  ones_and_zeros (Collator.build_labels [10; 11; 12; 13] [false; false; true; true])
  = [1; 1; 1; 1].
Proof. reflexivity. Qed.

Example position_ids_restart :
  Collator.build_position_ids [2; 3] 150 = [0; 1; 0; 1; 2].
Proof. reflexivity. Qed.

Example position_ids_continuous :
  Collator.build_position_ids_dummy [2; 3] 150 = [0; 1; 2; 3; 4].
Proof. reflexivity. Qed.

(** * More on the packing path *)

Lemma window_tokens_cons_window (w : Packed.t) (evs : list Event) :
  window_tokens (Yield (PackedItem w) :: evs) = Packed.input_ids w ++ window_tokens evs.
Proof. reflexivity. Qed.

Lemma stream_tokens_cons {Row} (self : ChatDataset Row) (row : Row) (rows : list Row) :
  stream_tokens self (row :: rows)
  = tokens (chat_tokenizer self row) ++ stream_tokens self rows.
Proof. reflexivity. Qed.

Lemma stream_tokens_snoc {Row} (self : ChatDataset Row) (rows : list Row) (row : Row) :
  stream_tokens self (rows ++ [row])
  = stream_tokens self rows ++ tokens (chat_tokenizer self row).
Proof.
  unfold stream_tokens. rewrite map_app, concat_app. simpl. now rewrite app_nil_r.
Qed.

(** A turn of the packing path, as far as the tokens go: the record's tokens
    join the buffered ones, and what the turn yields and what it leaves in
    the buffers are these tokens, cut in two. *)
Lemma packing_turn_tokens {Row} (self : ChatDataset Row)
    (st st' : IterState Row) (ev : Event) :
  pack_samples self = true ->
  lengths_inv (bufs st) ->
  gen_step self st = Ok (st', ev) ->
  lengths_inv (bufs st')
  /\ ((pending st = [] /\ pending st' = dataset self
       /\ ev = Relooped /\ bufs st' = bufs st)
      \/ exists row,
           pending st = row :: pending st'
           /\ window_tokens [ev] ++ buffer_tokens (bufs st')
              = buffer_tokens (bufs st) ++ tokens (chat_tokenizer self row)).
Proof.
  intros Hpack Hinv Hstep.
  apply gen_step_cases in Hstep
    as [(Hp & -> & Hb & _ & Hd)
       |[(row & Hp & _ & _ & o & Hk & ->)|(row & _ & Hno & _)]];
    [| |congruence].
  - rewrite Hb. split; [assumption|]. left. auto.
  - apply pack_sample_cases in Hk as [(_ & Hb & ->)|(_ & Hb & p & -> & Hpop)];
      rewrite Hb.
    + split; [now apply extend_buffers_lengths_inv|]. right. exists row.
      split; [assumption | reflexivity].
    + split; [apply reset_buffers_lengths_inv|]. right. exists row.
      split; [assumption|].
      unfold window_tokens. cbn [windows map concat packed_window Packed.input_ids].
      rewrite app_nil_r, (popped_tokens _ _ _ Hinv Hpop). reflexivity.
Qed.

(** X1: along a pass of the packing path no token is lost, repeated or moved:
    the tokens of the windows yielded so far, followed by the tokens still in
    the buffer, are the tokens that were buffered at first followed by those
    of the records pulled since, in the order of the dataset. *)
Theorem packing_conserves_tokens {Row} (self : ChatDataset Row)
    (st st' : IterState Row) (evs : list Event) :
  pack_samples self = true ->
  lengths_inv (bufs st) ->
  Steps self st evs st' ->
  (length evs <= length (pending st))%nat ->
  window_tokens evs ++ buffer_tokens (bufs st')
  = buffer_tokens (bufs st) ++ stream_tokens self (firstn (length evs) (pending st)).
Proof.
  intros Hpack Hinv Hrun. revert Hinv.
  induction Hrun as [st|st st1 st2 ev evs H1 _ IH]; intros Hinv Hlen.
  - cbn. now rewrite app_nil_r.
  - destruct (packing_turn_tokens self _ _ _ Hpack Hinv H1)
      as [Hinv1 [(Hp & _)|(row & Hp & Htok)]].
    + rewrite Hp in Hlen. simpl in Hlen. lia.
    + rewrite Hp in Hlen |- *. simpl in Hlen.
      cbn [length firstn]. rewrite stream_tokens_cons, app_assoc, <- Htok.
      specialize (IH Hinv1 ltac:(lia)).
      rewrite <- app_assoc, <- IH, app_assoc. f_equal.
      unfold window_tokens. destruct ev as [[w|d]| |]; cbn; now rewrite ?app_nil_r.
Qed.

Lemma packing_conserves_tokens_witness :
  let w := {| Packed.input_ids := repeat 1 100%nat ++ repeat 2 50%nat;
              Packed.label_mask := repeat 1 150%nat;
              Packed.position_ids := range 100 ++ range 50 |} in
  window_tokens [Quiet; Quiet; Yield (PackedItem w)] ++ repeat 3 80%nat
  = [] ++ stream_tokens overflow_scenario
            (firstn 3 [sample_of 100 1; sample_of 50 2; sample_of 80 3]).
Proof.
  intros w.
  apply (packing_conserves_tokens overflow_scenario (iter_start overflow_scenario)
           {| bufs := reset_buffers (sample_of 80 3); num_samples := 0; pending := [] |}
           [Quiet; Quiet; Yield (PackedItem w)]).
  - reflexivity.
  - reflexivity.
  - apply (gen_run_Steps _ 3). vm_compute. reflexivity.
  - simpl. lia.
Defined.

(** Between two turns the buffers hold whole samples of the dataset. *)
Lemma holds_whole_samples_run {Row} (self : ChatDataset Row)
    (evs : list Event) (st : IterState Row) :
  Steps self (iter_start self) evs st ->
  holds_whole_samples self (bufs st).
Proof.
  intros Hrun.
  apply (Steps_invariant self
           (fun st => incl (pending st) (dataset self)
                      /\ holds_whole_samples self (bufs st))
           (fun _ => True)) in Hrun as [[_ H] _]; auto.
  - intros s s' ev [Hincl (rows & Hrows & Ht & Hl)] Hstep. split; [|exact I].
    apply gen_step_cases in Hstep
      as [(_ & _ & -> & _ & ->)
         |[(row & Hp & _ & _ & o & Hk & _)|(row & Hp & _ & -> & _)]].
    + split; [apply incl_refl | now exists rows].
    + assert (In row (dataset self)) as Hrow by (apply Hincl; rewrite Hp; now left).
      split; [intros x Hx; apply Hincl; rewrite Hp; now right|].
      apply pack_sample_cases in Hk as [(_ & -> & _)|(_ & -> & _)].
      * exists (rows ++ [row]). split; [|split].
        -- apply incl_app; [assumption|]. intros x [<-|[]]. assumption.
        -- cbn [extend_buffers buffer_tokens]. now rewrite stream_tokens_snoc, Ht.
        -- cbn [extend_buffers buffer_lengths]. unfold stream_lengths.
           now rewrite map_app, Hl.
      * exists [row]. split; [|split].
        -- intros x [<-|[]]. assumption.
        -- cbn. now rewrite app_nil_r.
        -- reflexivity.
    + split; [intros x Hx; apply Hincl; rewrite Hp; now right | now exists rows].
  - split; [apply incl_refl|]. exists []. repeat split. intros x [].
Qed.

(** X2: a window never holds a part of a sample: its input_ids are the
    tokens of some records of the dataset, whole and one after the other, and
    its position ids are computed from the lengths of exactly these samples. *)
Theorem windows_hold_whole_samples {Row} (self : ChatDataset Row)
    (evs : list Event) (st : IterState Row) (w : Packed.t) :
  Steps self (iter_start self) evs st ->
  In w (windows evs) ->
  exists rows,
    incl rows (dataset self)
    /\ Packed.input_ids w = stream_tokens self rows
    /\ Packed.position_ids w
       = create_position_ids self (stream_lengths self rows) (sequence_length self).
Proof.
  intros Hrun Hin.
  destruct (windows_yielded self _ _ _ _ Hrun Hin) as (evs1 & st1 & st2 & Hpre & Hy).
  destruct (holds_whole_samples_run self _ _ Hpre) as (rows & Hrows & Ht & Hl).
  destruct (yield_from_reachable self _ _ _ (reachable_inv_run self _ _ Hpre) Hy)
    as (p & row & -> & Hpt & Hpl & _).
  exists rows. cbn [packed_window Packed.input_ids Packed.position_ids].
  rewrite Hpt, Hpl, Ht, Hl. auto.
Qed.

Lemma windows_hold_whole_samples_witness :
  let w := {| Packed.input_ids := repeat 1 100%nat ++ repeat 2 50%nat;
              Packed.label_mask := repeat 1 150%nat;
              Packed.position_ids := range 100 ++ range 50 |} in
  exists rows,
    incl rows (dataset overflow_scenario)
    /\ Packed.input_ids w = stream_tokens overflow_scenario rows
    /\ Packed.position_ids w
       = create_position_ids overflow_scenario (stream_lengths overflow_scenario rows) 150.
Proof.
  intros w.
  apply (windows_hold_whole_samples overflow_scenario [Quiet; Quiet; Yield (PackedItem w)]
           {| bufs := reset_buffers (sample_of 80 3); num_samples := 0; pending := [] |} w).
  - apply (gen_run_Steps _ 3). vm_compute. reflexivity.
  - simpl. left. reflexivity.
Defined.

(** X3: the packing path cuts a window exactly when the next sample does not
    fit.  A turn on a record whose tokens, added to the buffered ones, stay
    within sequence_length + 1 yields nothing and only appends the sample;
    otherwise it yields the buffered tokens as a window, to which the sample
    could not have been added, and restarts the buffers from the sample. *)
Theorem window_cut_when_sample_does_not_fit {Row} (self : ChatDataset Row)
    (evs : list Event) (st st' : IterState Row) (ev : Event) (row : Row) (rest : list Row) :
  pack_samples self = true ->
  Steps self (iter_start self) evs st ->
  pending st = row :: rest ->
  gen_step self st = Ok (st', ev) ->
  let s := chat_tokenizer self row in
  (len (buffer_tokens (bufs st)) + len (tokens s) <= sequence_length self + 1
   /\ ev = Quiet
   /\ bufs st' = extend_buffers (bufs st) s)
  \/ (len (buffer_tokens (bufs st)) + len (tokens s) > sequence_length self + 1
      /\ bufs st' = reset_buffers s
      /\ exists w, ev = Yield (PackedItem w)
           /\ Packed.input_ids w = buffer_tokens (bufs st)
           /\ len (Packed.input_ids w) + len (tokens s) > sequence_length self + 1).
Proof.
  intros Hpack Hrun Hp Hstep s.
  destruct (reachable_inv_run self _ _ Hrun) as (Hsum & _ & _).
  apply gen_step_cases in Hstep
    as [(Hp' & _)
       |[(row' & Hp' & _ & _ & o & Hk & ->)|(row' & _ & Hno & _)]];
    [congruence| |congruence].
  rewrite Hp in Hp'. injection Hp' as <- _. fold s in Hk.
  apply pack_sample_cases in Hk as [(Hle & Hb & ->)|(Hgt & Hb & p & -> & Hpop)].
  - left. repeat split; [lia | assumption].
  - right. split; [lia|]. split; [assumption|].
    exists (packed_window self p). split; [reflexivity|].
    cbn [packed_window Packed.input_ids].
    rewrite (popped_tokens _ _ _ Hsum Hpop). split; [reflexivity | lia].
Qed.

Lemma window_cut_when_sample_does_not_fit_witness :
  let s1 := sample_of 100 1 in
  let s2 := sample_of 50 2 in
  let s3 := sample_of 80 3 in
  let b2 := extend_buffers (extend_buffers empty_buffers s1) s2 in
  let ev := Yield (PackedItem {| Packed.input_ids := repeat 1 100%nat ++ repeat 2 50%nat;
                                 Packed.label_mask := repeat 1 150%nat;
                                 Packed.position_ids := range 100 ++ range 50 |}) in
  (len (buffer_tokens b2) + len (tokens s3) <= 150 + 1
   /\ ev = Quiet
   /\ reset_buffers s3 = extend_buffers b2 s3)
  \/ (len (buffer_tokens b2) + len (tokens s3) > 150 + 1
      /\ reset_buffers s3 = reset_buffers s3
      /\ exists w, ev = Yield (PackedItem w)
           /\ Packed.input_ids w = buffer_tokens b2
           /\ len (Packed.input_ids w) + len (tokens s3) > 150 + 1).
Proof.
  intros s1 s2 s3 b2 ev.
  apply (window_cut_when_sample_does_not_fit overflow_scenario [Quiet; Quiet]
           {| bufs := b2; num_samples := 0; pending := [s3] |}
           {| bufs := reset_buffers s3; num_samples := 0; pending := [] |}
           ev s3 []).
  - reflexivity.
  - apply (gen_run_Steps _ 2). vm_compute. reflexivity.
  - reflexivity.
  - vm_compute. reflexivity.
Defined.




(** X5: on buffers that satisfy the invariant and a sample with one flag per
    token, the packing step raises only an AssertionError, and it does so in
    one case only: the sample has no token and comes when the buffers hold
    tokens, more than sequence_length + 1 of them; then buffer_tokens[:-0] is
    empty and the assertion of line 120 fails. *)
Theorem pack_sample_raises_iff {Row} (self : ChatDataset Row) (b : Buffers) (s : Sample) :
  buffer_inv b -> well_formed s ->
  (forall e, pack_sample self b s = Raise e -> e = AssertionError)
  /\ (pack_sample self b s = Raise AssertionError
      <-> tokens s = [] /\ buffer_tokens b <> []
          /\ len (buffer_tokens b) > sequence_length self + 1).
Proof.
  intros Hinv Hs.
  assert (Hcases :
    (tokens s = [] /\ buffer_tokens b <> []
     /\ len (buffer_tokens b) > sequence_length self + 1
     /\ pack_sample self b s = Raise AssertionError)
    \/ (~ (tokens s = [] /\ buffer_tokens b <> []
           /\ len (buffer_tokens b) > sequence_length self + 1)
        /\ exists r, pack_sample self b s = Ok r)).
  { destruct (Z_gt_le_dec (len (buffer_tokens b) + len (tokens s)) (1 + sequence_length self))
      as [Hgt|Hle].
    - destruct (nil_or_not (tokens s)) as [Ht|Ht].
      + destruct (nil_or_not (buffer_tokens b)) as [Hb|Hb].
        * right. split; [tauto|]. eexists. apply pack_sample_overflows; auto.
        * left. rewrite Ht in Hgt. change (len (@nil Z)) with 0 in Hgt.
          split; [assumption|]. split; [assumption|]. split; [lia|].
          unfold pack_sample. cbn [extend_buffers buffer_tokens]. rewrite len_app, Ht.
          change (len (@nil Z)) with 0.
          destruct (Z.gtb_spec (len (buffer_tokens b) + 0) (1 + sequence_length self)); [|lia].
          unfold pop_last_sample.
          cbn [extend_buffers buffer_tokens buffer_is_completition buffer_lengths].
          rewrite Ht. change (- len (@nil Z)) with 0.
          rewrite !slice_to_zero, slice_to_snoc.
          change (len (@nil Z)) with 0. change (len (@nil bool)) with 0.
          destruct Hinv as [Hsum _]. rewrite Hsum.
          destruct (Z.eqb_spec 0 (len (buffer_tokens b))) as [E|_]; [|reflexivity].
          exfalso. apply Hb. apply len_nil_inv. lia.
      + right. split; [tauto|]. eexists. apply pack_sample_overflows; auto.
    - right. split.
      + intros (Ht & _ & Hlong). rewrite Ht in Hle. change (len (@nil Z)) with 0 in Hle. lia.
      + eexists. now apply pack_sample_fits. }
  destruct Hcases as [(Ht & Hb & Hlong & Hraise)|(Hnot & r & Hok)].
  - split; [intros e He; congruence|]. tauto.
  - split; [intros e He; congruence|]. split; [congruence | tauto].
Qed.

Lemma pack_sample_raises_iff_witness :
  let s := sample_of 0 0 in
  let b := reset_buffers (sample_of 5 7) in
  (forall e, pack_sample long_then_short b s = Raise e -> e = AssertionError)
  /\ (pack_sample long_then_short b s = Raise AssertionError
      <-> tokens s = [] /\ buffer_tokens b <> [] /\ len (buffer_tokens b) > 2 + 1).
Proof.
  intros s b.
  apply (pack_sample_raises_iff long_then_short b s).
  - apply reset_buffers_inv. reflexivity.
  - reflexivity.
Defined.

(** The example behind it: an empty sample after one of 5 tokens, with
    windows of at most 3 tokens. *)
Example empty_sample_after_long_one :
  pack_sample long_then_short (reset_buffers (sample_of 5 7)) (sample_of 0 0)
  = Raise AssertionError.
Proof. reflexivity. Qed.

(** A turn of the packing path on buffers that satisfy the invariant, when
    the records are packable, ends without an exception. *)
Lemma gen_step_packable {Row} (self : ChatDataset Row) (st : IterState Row) :
  pack_samples self = true ->
  (forall row, In row (dataset self) -> packable self row) ->
  buffer_inv (bufs st) ->
  incl (pending st) (dataset self) ->
  exists st' ev,
    gen_step self st = Ok (st', ev)
    /\ buffer_inv (bufs st')
    /\ incl (pending st') (dataset self).
Proof.
  intros Hpack Hrows Hinv Hincl.
  destruct (pending st) as [|row rest] eqn:Hp.
  - eexists; eexists. unfold gen_step. rewrite Hp.
    split; [reflexivity|]. split; [assumption | apply incl_refl].
  - destruct (Hrows row) as (Hwf & Hne & Hdbg); [apply Hincl; now left|].
    assert (Hrest : incl rest (dataset self)) by (intros x Hx; apply Hincl; now right).
    destruct (Z_gt_le_dec (len (buffer_tokens (bufs st)) + len (tokens (chat_tokenizer self row)))
                (1 + sequence_length self)) as [Hgt|Hle].
    + eexists; eexists. split.
      * apply (gen_step_packs self st row rest); eauto.
        apply pack_sample_overflows; auto.
      * split; [now apply reset_buffers_inv | assumption].
    + eexists; eexists. split.
      * apply (gen_step_packs self st row rest); eauto.
        now apply pack_sample_fits.
      * split; [now apply extend_buffers_inv | assumption].
Qed.

Lemma gen_run_packable {Row} (self : ChatDataset Row) (n : nat) (st : IterState Row) :
  pack_samples self = true ->
  (forall row, In row (dataset self) -> packable self row) ->
  buffer_inv (bufs st) ->
  incl (pending st) (dataset self) ->
  exists st', snd (gen_run self n st) = Ok st' /\ length (fst (gen_run self n st)) = n.
Proof.
  intros Hpack Hrows. revert st.
  induction n as [|n IH]; intros st Hinv Hincl.
  - exists st. split; reflexivity.
  - destruct (gen_step_packable self st Hpack Hrows Hinv Hincl)
      as (st1 & ev & Hstep & Hinv1 & Hincl1).
    destruct (IH st1 Hinv1 Hincl1) as (st' & Hok & Hlen).
    exists st'. cbn [gen_run]. rewrite Hstep. cbn [fst snd length].
    split; [assumption | now rewrite Hlen].
Qed.

Lemma np_int32_in_range (l : list Z) :
  Forall (fun x => in_int32 x = true) l -> np_int32 l = Some l.
Proof.
  intros H. unfold np_int32.
  replace (forallb in_int32 l) with true; [reflexivity|].
  symmetry. apply forallb_forall. now apply Forall_forall.
Qed.

Lemma ones_and_zeros_in_int32 (l : list bool) :
  Forall (fun x => in_int32 x = true) (ones_and_zeros l).
Proof.
  unfold ones_and_zeros. apply Forall_map, Forall_forall. intros [|] _; reflexivity.
Qed.

Lemma stream_tokens_in_int32 {Row} (self : ChatDataset Row) (rows : list Row) :
  (forall row, In row rows ->
     Forall (fun x => in_int32 x = true) (tokens (chat_tokenizer self row))) ->
  Forall (fun x => in_int32 x = true) (stream_tokens self rows).
Proof.
  intros H. unfold stream_tokens.
  induction rows as [|row rows IH]; cbn [map concat]; [constructor|].
  apply Forall_app. split; [apply H; now left|].
  apply IH. intros r Hr. apply H. now right.
Qed.

(** X6: the packing path goes on for ever when every record of the dataset
    is tokenized to at least one token, with one flag per token and token ids
    in the range of np.int32, and passes the check against the chat template:
    however many turns are asked for, across any number of passes over the
    dataset, no assertion fails, and the casts of lines 137-138 succeed on
    the input_ids and the label_mask of every window that is yielded. *)
Theorem packing_run_never_raises {Row} (self : ChatDataset Row) (n : nat) :
  pack_samples self = true ->
  (forall row, In row (dataset self) -> packable self row) ->
  (forall row, In row (dataset self) ->
     Forall (fun x => in_int32 x = true) (tokens (chat_tokenizer self row))) ->
  exists st,
    snd (gen_run self n (iter_start self)) = Ok st
    /\ length (fst (gen_run self n (iter_start self))) = n
    /\ forall w, In w (windows (fst (gen_run self n (iter_start self)))) ->
         np_int32 (Packed.input_ids w) = Some (Packed.input_ids w)
         /\ np_int32 (Packed.label_mask w) = Some (Packed.label_mask w).
Proof.
  intros Hpack Hrows Hids.
  destruct (gen_run_packable self n (iter_start self) Hpack Hrows buffer_inv_empty
              (incl_refl _)) as (st & Hok & Hlen).
  exists st. split; [assumption|]. split; [assumption|].
  intros w Hin.
  assert (Hrun : Steps self (iter_start self) (fst (gen_run self n (iter_start self))) st).
  { apply (gen_run_Steps self n). 
    destruct (gen_run self n (iter_start self)) as [evs r]. cbn in Hok |- *. now subst. }
  destruct (windows_yielded self _ _ _ _ Hrun Hin) as (evs1 & st1 & st2 & Hpre & Hy).
  destruct (holds_whole_samples_run self _ _ Hpre) as (rows & Hincl & Ht & _).
  destruct (yield_from_reachable self _ _ _ (reachable_inv_run self _ _ Hpre) Hy)
    as (p & row & -> & Hpt & _).
  cbn [packed_window Packed.input_ids Packed.label_mask]. split.
  - apply np_int32_in_range. rewrite Hpt, Ht.
    apply stream_tokens_in_int32. intros r Hr. apply Hids, Hincl, Hr.
  - apply np_int32_in_range, ones_and_zeros_in_int32.
Qed.

Lemma overflow_scenario_packable :
  forall row, In row (dataset overflow_scenario) -> packable overflow_scenario row.
Proof.
  intros row [<-|[<-|[<-|[]]]]; (split; [reflexivity|split; [discriminate|reflexivity]]).
Qed.

Lemma overflow_scenario_in_int32 :
  forall row, In row (dataset overflow_scenario) ->
    Forall (fun x => in_int32 x = true) (tokens (chat_tokenizer overflow_scenario row)).
Proof.
  intros row [<-|[<-|[<-|[]]]]; apply Forall_forall; intros x Hx;
    apply repeat_spec in Hx; subst; reflexivity.
Qed.

Lemma packing_run_never_raises_witness :
  exists st,
    snd (gen_run overflow_scenario 10 (iter_start overflow_scenario)) = Ok st
    /\ length (fst (gen_run overflow_scenario 10 (iter_start overflow_scenario))) = 10%nat
    /\ forall w, In w (windows (fst (gen_run overflow_scenario 10 (iter_start overflow_scenario)))) ->
         np_int32 (Packed.input_ids w) = Some (Packed.input_ids w)
         /\ np_int32 (Packed.label_mask w) = Some (Packed.label_mask w).
Proof.
  apply (packing_run_never_raises overflow_scenario 10).
  - reflexivity.
  - exact overflow_scenario_packable.
  - exact overflow_scenario_in_int32.
Defined.

(** * More on the non-packing path *)

Lemma mul_singleton {A} (x : A) (n : Z) : mul [x] n = repeat x (Z.to_nat n).
Proof.
  unfold mul. induction (Z.to_nat n) as [|k IH]; simpl; [reflexivity | now rewrite IH].
Qed.

Lemma repeat_snoc {A} (x : A) (n : nat) : repeat x n ++ [x] = repeat x (n + 1).
Proof. now rewrite repeat_app. Qed.

Lemma ones_and_zeros_pad (l : list bool) (n : nat) :
  ones_and_zeros (l ++ repeat false n) = ones_and_zeros l ++ repeat 0 n.
Proof.
  unfold ones_and_zeros. rewrite map_app. f_equal.
  induction n as [|n IH]; simpl; [reflexivity | now rewrite IH].
Qed.

(** The two length checks of lines 160-161 come down to one comparison. *)
Lemma padded_checks {A} (x y : list Z) (z : list bool) (n1 n2 k : nat) (ok err : A) :
  length x = (n2 + k)%nat -> length y = (n2 + k)%nat -> length z = (n1 + k)%nat ->
  (if negb (len x =? len y) then err
   else if negb (len y =? len z) then err
   else ok)
  = if (n1 =? n2)%nat then ok else err.
Proof.
  intros Hx Hy Hz.
  assert (E : len x = len y) by (unfold len; lia).
  rewrite E, Z.eqb_refl. cbn [negb].
  destruct (Nat.eqb_spec n1 n2) as [Hl|Hl];
    destruct (Z.eqb_spec (len y) (len z)) as [He|He];
    cbn [negb]; try reflexivity; exfalso; unfold len in He; lia.
Qed.

(** The lengths of the lists that [pad_sample] builds. *)
Ltac pad_lengths :=
  rewrite ?length_app, ?repeat_length; cbn [length]; lia.

(** What [pad_sample] comes down to when [sp_chunks] is not 0: [k] pad
    positions after the sample, at most [sp_chunks] of them, or the
    AssertionError of line 161 when the labels are not as many as the tokens. *)
Lemma pad_sample_shape {Row} (self : ChatDataset Row) (s : Sample) :
  sp_chunks self <> 0 ->
  exists k : nat,
    (0 < sp_chunks self -> Z.of_nat k <= sp_chunks self)
    /\ pad_sample self s
       = if (length (create_labels self (tokens s) (is_completition s))
             =? length (tokens s))%nat
         then Ok {| Padded.input_ids := tokens s ++ repeat (pad_token_id self) k;
                    Padded.input_mask := repeat 1 (length (tokens s)) ++ repeat 0 k;
                    Padded.label_mask :=
                      ones_and_zeros (create_labels self (tokens s) (is_completition s))
                      ++ repeat 0 k |}
         else Raise AssertionError.
Proof.
  intros Hc. unfold pad_sample.
  destruct (Z.eqb_spec (sp_chunks self) 0) as [?|_]; [contradiction|].
  rewrite !mul_singleton.
  replace (Z.to_nat (len (tokens s))) with (length (tokens s)) by (unfold len; lia).
  set (lab := create_labels self (tokens s) (is_completition s)).
  set (rem := len (tokens s) mod sp_chunks self).
  assert (Hrem : 0 < sp_chunks self -> 0 <= rem < sp_chunks self)
    by (intros; apply Z.mod_pos_bound; assumption).
  set (a := Z.to_nat (sp_chunks self - rem)).
  destruct (Z.eqb_spec rem 0) as [Hz|Hnz];
    destruct (Z.gtb_spec (sp_chunks self) 1) as [Hgt|Hle];
    cbv beta iota zeta; cbn [negb].
  - exists 1%nat. split; [lia|].
    rewrite (padded_checks _ _ _ (length lab) (length (tokens s)) 1) by pad_lengths.
    destruct (_ =? _)%nat; [|reflexivity].
    unfold ones_and_zeros. rewrite map_app. reflexivity.
  - exists 0%nat. split; [lia|].
    rewrite (padded_checks _ _ _ (length lab) (length (tokens s)) 0) by pad_lengths.
    destruct (_ =? _)%nat; [|reflexivity].
    cbn [repeat]. rewrite !app_nil_r. reflexivity.
  - exists (a + 1)%nat. split; [unfold a; lia|].
    rewrite (padded_checks _ _ _ (length lab) (length (tokens s)) (a + 1)) by pad_lengths.
    destruct (_ =? _)%nat; [|reflexivity].
    rewrite <- !repeat_snoc, !app_assoc, <- ones_and_zeros_pad.
    unfold ones_and_zeros. rewrite !map_app. reflexivity.
  - exists a. split; [unfold a; lia|].
    rewrite (padded_checks _ _ _ (length lab) (length (tokens s)) a) by pad_lengths.
    destruct (_ =? _)%nat; [|reflexivity].
    rewrite ones_and_zeros_pad. reflexivity.
Qed.

Lemma pad_sample_zero_division {Row} (self : ChatDataset Row) (s : Sample) :
  pad_sample self s = Raise ZeroDivisionError <-> sp_chunks self = 0.
Proof.
  split.
  - intros Hraise. destruct (Z.eq_dec (sp_chunks self) 0) as [|Hc]; [assumption|].
    destruct (pad_sample_shape self s Hc) as (k & _ & Hshape).
    rewrite Hshape in Hraise. destruct (_ =? _)%nat; discriminate.
  - intros Hc. unfold pad_sample. now rewrite Hc.
Qed.

(** The masks of an item of the non-packing path. *)
Lemma padding_shape_of_item {Row} (self : ChatDataset Row) (s : Sample) (d : Padded.t) :
  pad_sample self s = Ok d ->
  exists k : nat,
    Padded.input_mask d = repeat 1 (length (tokens s)) ++ repeat 0 k
    /\ Padded.label_mask d
       = ones_and_zeros (create_labels self (tokens s) (is_completition s)) ++ repeat 0 k.
Proof.
  intros Hok.
  assert (Hc : sp_chunks self <> 0).
  { intros Hc. apply (pad_sample_zero_division self s) in Hc. congruence. }
  destruct (pad_sample_shape self s Hc) as (k & _ & Hshape).
  rewrite Hshape in Hok. destruct (_ =? _)%nat; [|discriminate].
  injection Hok as <-. exists k. cbn. auto.
Qed.

(** X7: the item of the non-packing path is the sample followed by at most
    sp_chunks pad positions: input_ids are the tokens, untouched, then pad
    tokens; input_mask is 1 on every token and 0 on every pad position;
    label_mask is the label policy's mask on the tokens and 0 on every pad
    position, so that no pad position is ever trained on. *)
Theorem padding_keeps_sample {Row} (self : ChatDataset Row) (s : Sample) (d : Padded.t) :
  pad_sample self s = Ok d ->
  exists k : nat,
    (0 < sp_chunks self -> Z.of_nat k <= sp_chunks self)
    /\ Padded.input_ids d = tokens s ++ repeat (pad_token_id self) k
    /\ Padded.input_mask d = repeat 1 (length (tokens s)) ++ repeat 0 k
    /\ Padded.label_mask d
       = ones_and_zeros (create_labels self (tokens s) (is_completition s)) ++ repeat 0 k.
Proof.
  intros Hok.
  assert (Hc : sp_chunks self <> 0).
  { intros Hc. apply (pad_sample_zero_division self s) in Hc. congruence. }
  destruct (pad_sample_shape self s Hc) as (k & Hk & Hshape).
  rewrite Hshape in Hok. destruct (_ =? _)%nat; [|discriminate].
  injection Hok as <-. exists k. cbn. auto.
Qed.

Lemma padding_keeps_sample_witness :
  let d := {| Padded.input_ids := [7; 7; 7; 7; 7; 0; 0; 0; 0];
              Padded.input_mask := [1; 1; 1; 1; 1; 0; 0; 0; 0];
              Padded.label_mask := [1; 1; 1; 1; 1; 0; 0; 0; 0] |} in
  exists k : nat,
    (0 < 4 -> Z.of_nat k <= 4)
    /\ Padded.input_ids d = [7; 7; 7; 7; 7] ++ repeat 0 k
    /\ Padded.input_mask d = repeat 1 5%nat ++ repeat 0 k
    /\ Padded.label_mask d = [1; 1; 1; 1; 1] ++ repeat 0 k.
Proof.
  intros d.
  apply (padding_keeps_sample five_tokens_two_ranks (sample_of 5 7) d).
  reflexivity.
Defined.

(** X8: the non-packing path raises in two cases only: ZeroDivisionError
    when sp_chunks is 0, and otherwise the AssertionError of line 161, when
    the label policy does not return one label per token.  The assertion of
    line 160 never fails. *)
Theorem pad_sample_raises_iff {Row} (self : ChatDataset Row) (s : Sample) :
  (pad_sample self s = Raise ZeroDivisionError <-> sp_chunks self = 0)
  /\ (pad_sample self s = Raise AssertionError
      <-> sp_chunks self <> 0
          /\ length (create_labels self (tokens s) (is_completition s))
             <> length (tokens s)).
Proof.
  split; [apply pad_sample_zero_division|].
  destruct (Z.eq_dec (sp_chunks self) 0) as [Hc|Hc].
  - pose proof (proj2 (pad_sample_zero_division self s) Hc) as Hz.
    rewrite Hz. split; [discriminate | tauto].
  - destruct (pad_sample_shape self s Hc) as (k & _ & ->).
    destruct (Nat.eqb_spec (length (create_labels self (tokens s) (is_completition s)))
                (length (tokens s))) as [Hl|Hl].
    + split; [discriminate | tauto].
    + split; [tauto | reflexivity].
Qed.

(** X15: without sequence parallelism (sp_ranks_size <= 1, so sp_chunks = 1)
    nothing is padded: the item is the sample as it is, with an input_mask of
    ones and the mask of the label policy. *)
Theorem no_padding_without_sequence_parallelism {Row} (self : ChatDataset Row)
    (sp_ranks_size : Z) (s : Sample) :
  sp_chunks self = sp_chunks_of sp_ranks_size ->
  sp_ranks_size <= 1 ->
  length (create_labels self (tokens s) (is_completition s)) = length (tokens s) ->
  pad_sample self s
  = Ok {| Padded.input_ids := tokens s;
          Padded.input_mask := repeat 1 (length (tokens s));
          Padded.label_mask :=
            ones_and_zeros (create_labels self (tokens s) (is_completition s)) |}.
Proof.
  intros Hc Hsp Hlab.
  assert (Hone : sp_chunks self = 1).
  { rewrite Hc. unfold sp_chunks_of. destruct (Z.gtb_spec sp_ranks_size 1); [lia | reflexivity]. }
  unfold pad_sample. rewrite Hone, Z.mod_1_r.
  destruct (Z.eqb_spec 1 0) as [?|_]; [lia|].
  destruct (Z.eqb_spec 0 0) as [_|?]; [|lia].
  destruct (Z.gtb_spec 1 1) as [?|_]; [lia|].
  cbv beta iota zeta; cbn [negb].
  rewrite mul_singleton.
  replace (Z.to_nat (len (tokens s))) with (length (tokens s)) by (unfold len; lia).
  rewrite (padded_checks _ _ _ (length (create_labels self (tokens s) (is_completition s)))
             (length (tokens s)) 0) by pad_lengths.
  now rewrite Hlab, Nat.eqb_refl.
Qed.

Lemma no_padding_without_sequence_parallelism_witness :
  pad_sample overflow_scenario (sample_of 5 7)
  = Ok {| Padded.input_ids := tokens (sample_of 5 7);
          Padded.input_mask := repeat 1 (length (tokens (sample_of 5 7)));
          Padded.label_mask :=
            ones_and_zeros (create_labels overflow_scenario (tokens (sample_of 5 7))
                              (is_completition (sample_of 5 7))) |}.
Proof.
  apply (no_padding_without_sequence_parallelism overflow_scenario 1 (sample_of 5 7));
    [reflexivity | lia | reflexivity].
Defined.

(** * More on the generator *)

(** The packing step raises nothing but the AssertionError of line 120. *)
Lemma pack_sample_raises_assertion {Row} (self : ChatDataset Row)
    (b : Buffers) (s : Sample) (e : exn) :
  pack_sample self b s = Raise e -> e = AssertionError.
Proof.
  unfold pack_sample. destruct (_ >? _); [|discriminate].
  unfold pop_last_sample. destruct (_ && _); cbn [bind]; congruence.
Qed.

(** X9: a dataset built by [__init__] never divides by zero: whatever
    sp_ranks_size is (0 and negative numbers too), sp_chunks is at least 1,
    and no turn of the generator raises ZeroDivisionError. *)
Theorem init_never_divides_by_zero {Row} (rows : list Row) (tokenizer : Row -> Sample)
    (template : Row -> list Z) (pad n : Z) (completions_only cross pack : bool) (sp : Z)
    (st : IterState Row) :
  let self := init rows tokenizer template pad n completions_only cross pack sp in
  1 <= sp_chunks self
  /\ gen_step self st <> Raise ZeroDivisionError.
Proof.
  intros self. split; [apply sp_chunks_of_pos|].
  unfold gen_step. destruct (pending st) as [|row rest]; [discriminate|].
  unfold loop_body. destruct (negb _); [discriminate|].
  destruct (pack_samples self).
  - destruct (pack_sample self (bufs st) (chat_tokenizer self row)) as [r|e] eqn:Hk;
      cbn [bind]; [discriminate|].
    apply pack_sample_raises_assertion in Hk. congruence.
  - destruct (pad_sample self (chat_tokenizer self row)) as [d|e] eqn:Hpad;
      cbn [bind]; [discriminate|].
    intros [= ->]. apply pad_sample_zero_division in Hpad.
    pose proof (sp_chunks_of_pos sp). cbn [self init sp_chunks] in Hpad. lia.
Qed.

(** A turn without packing: the buffers are left alone, and the counter goes
    up with every item. *)
Lemma gen_step_non_packing {Row} (self : ChatDataset Row)
    (st st' : IterState Row) (ev : Event) :
  pack_samples self = false ->
  gen_step self st = Ok (st', ev) ->
  bufs st' = bufs st
  /\ ((ev = Relooped /\ num_samples st' = num_samples st)
      \/ exists d, ev = Yield (PaddedItem d) /\ num_samples st' = num_samples st + 1).
Proof.
  intros Hpack. unfold gen_step. destruct (pending st) as [|row rest].
  - intros [= <- <-]. cbn. auto.
  - unfold loop_body. destruct (negb _); [discriminate|]. rewrite Hpack.
    destruct (pad_sample self (chat_tokenizer self row)) as [d|e]; cbn [bind]; [|discriminate].
    intros [= <- <-]. cbn. split; [reflexivity|]. right. now exists d.
Qed.

(** X10: without packing the buffers are never used and every record gives
    one item: from the start of a run the buffers stay empty, no turn is
    silent, no packed window is yielded, and num_samples counts the items
    yielded so far. *)
Theorem non_packing_run {Row} (self : ChatDataset Row)
    (evs : list Event) (st : IterState Row) :
  pack_samples self = false ->
  Steps self (iter_start self) evs st ->
  bufs st = empty_buffers
  /\ num_samples st = yields evs
  /\ windows evs = []
  /\ ~ In Quiet evs.
Proof.
  intros Hpack Hrun.
  assert (Hgen : forall s evs s', Steps self s evs s' ->
            bufs s' = bufs s
            /\ num_samples s' = num_samples s + yields evs
            /\ windows evs = []
            /\ ~ In Quiet evs).
  { clear evs st Hrun. induction 1 as [s|s s1 s2 ev evs H1 _ IH].
    - cbn. repeat split; [lia | tauto].
    - destruct IH as (Hb & Hn & Hw & Hq).
      destruct (gen_step_non_packing self _ _ _ Hpack H1)
        as [Hb1 [[-> Hn1]|(d & -> & Hn1)]];
        cbn [yields windows]; (repeat split; [congruence | lia | assumption |]);
        intros [?|?]; [discriminate | tauto | discriminate | tauto]. }
  destruct (Hgen _ _ _ Hrun) as (Hb & Hn & Hw & Hq).
  cbn in Hb, Hn. repeat split; auto.
Qed.

Lemma non_packing_run_witness :
  let d1 := {| Padded.input_ids := [7; 7; 7; 7; 7; 0; 0; 0; 0];
               Padded.input_mask := [1; 1; 1; 1; 1; 0; 0; 0; 0];
               Padded.label_mask := [1; 1; 1; 1; 1; 0; 0; 0; 0] |} in
  let d2 := {| Padded.input_ids := [9; 9; 9; 9; 9; 9; 9; 9; 0];
               Padded.input_mask := [1; 1; 1; 1; 1; 1; 1; 1; 0];
               Padded.label_mask := [1; 1; 1; 1; 1; 1; 1; 1; 0] |} in
  let evs := [Yield (PaddedItem d1); Yield (PaddedItem d2); Relooped] in
  empty_buffers = empty_buffers
  /\ 2 = yields evs
  /\ windows evs = []
  /\ ~ In Quiet evs.
Proof.
  intros d1 d2 evs.
  apply (non_packing_run unpacked_scenario evs
           {| bufs := empty_buffers; num_samples := 2;
              pending := [sample_of 5 7; sample_of 8 9] |}).
  - reflexivity.
  - apply (gen_run_Steps _ 3). vm_compute. reflexivity.
Defined.

(** A turn with packing: the counter is left alone, and what is yielded is a
    window. *)
Lemma gen_step_packing {Row} (self : ChatDataset Row)
    (st st' : IterState Row) (ev : Event) :
  pack_samples self = true ->
  gen_step self st = Ok (st', ev) ->
  num_samples st' = num_samples st
  /\ (ev = Relooped \/ ev = Quiet \/ exists w, ev = Yield (PackedItem w)).
Proof.
  intros Hpack Hstep.
  apply gen_step_cases in Hstep
    as [(_ & -> & _ & Hn & _)
       |[(row & _ & _ & Hn & o & _ & ->)|(row & _ & Hno & _)]];
    [| |congruence].
  - auto.
  - split; [assumption|]. destruct o as [p|]; eauto.
Qed.

(** X11: with packing, num_samples is never counted up, and every item
    handed to the caller is a packed window. *)
Theorem packing_run_counter {Row} (self : ChatDataset Row)
    (evs : list Event) (st : IterState Row) :
  pack_samples self = true ->
  Steps self (iter_start self) evs st ->
  num_samples st = 0
  /\ yields evs = len (windows evs).
Proof.
  intros Hpack Hrun.
  assert (Hgen : forall s evs s', Steps self s evs s' ->
            num_samples s' = num_samples s /\ yields evs = len (windows evs)).
  { clear evs st Hrun. induction 1 as [s|s s1 s2 ev evs H1 _ IH].
    - split; reflexivity.
    - destruct IH as [Hn Hy].
      destruct (gen_step_packing self _ _ _ Hpack H1) as [Hn1 [->|[->|[w ->]]]];
        cbn [yields windows]; (split; [congruence|]); try assumption.
      rewrite Hy. unfold len. cbn [length]. lia. }
  destruct (Hgen _ _ _ Hrun) as [Hn Hy]. split; assumption.
Qed.

Lemma packing_run_counter_witness :
  let w := {| Packed.input_ids := repeat 1 100%nat ++ repeat 2 50%nat;
              Packed.label_mask := repeat 1 150%nat;
              Packed.position_ids := range 100 ++ range 50 |} in
  let evs := [Quiet; Quiet; Yield (PackedItem w)] in
  0 = 0 /\ yields evs = len (windows evs).
Proof.
  intros w evs.
  apply (packing_run_counter overflow_scenario evs
           {| bufs := reset_buffers (sample_of 80 3); num_samples := 0; pending := [] |}).
  - reflexivity.
  - apply (gen_run_Steps _ 3). vm_compute. reflexivity.
Defined.

(** X12: the passes over the dataset are periodic: with N records, every pass
    takes N turns that pull the records in the order of the dataset, none
    skipped and none pulled twice, and one turn that re-loops; after t turns
    the iterator holds the records from position t mod (N + 1) on. *)
Theorem passes_are_periodic {Row} (self : ChatDataset Row)
    (evs : list Event) (st : IterState Row) :
  Steps self (iter_start self) evs st ->
  pending st = skipn (length evs mod (length (dataset self) + 1)) (dataset self).
Proof.
  intros Hrun.
  apply (pending_position self _ _ _ Hrun 0%nat); [lia | reflexivity].
Qed.

Lemma passes_are_periodic_witness :
  let st := {| bufs := reset_buffers (sample_of 100 1); num_samples := 0;
               pending := [sample_of 50 2; sample_of 80 3] |} in
  pending st = skipn (5 mod (3 + 1)) (dataset overflow_scenario).
Proof.
  intros st.
  apply (passes_are_periodic overflow_scenario
           [Quiet; Quiet;
            Yield (PackedItem {| Packed.input_ids := repeat 1 100%nat ++ repeat 2 50%nat;
                                 Packed.label_mask := repeat 1 150%nat;
                                 Packed.position_ids := range 100 ++ range 50 |});
            Relooped;
            Yield (PackedItem {| Packed.input_ids := repeat 3 80%nat;
                                 Packed.label_mask := repeat 1 80%nat;
                                 Packed.position_ids := range 80 |})] st).
  apply (gen_run_Steps _ 5). vm_compute. reflexivity.
Defined.

(** X13: on a dataset without records the generator yields nothing and
    raises nothing: every turn re-loops, for ever, and leaves the state as it
    was at the start. *)
Theorem empty_dataset_reloops {Row} (self : ChatDataset Row) (n : nat) :
  dataset self = [] ->
  gen_run self n (iter_start self) = (repeat Relooped n, Ok (iter_start self)).
Proof.
  intros Hds.
  assert (Hstep : gen_step self (iter_start self) = Ok (iter_start self, Relooped)).
  { unfold gen_step, iter_start. cbn [pending bufs num_samples]. now rewrite Hds. }
  induction n as [|n IH]; [reflexivity|].
  cbn [gen_run]. rewrite Hstep, IH. reflexivity.
Qed.

Lemma empty_dataset_reloops_witness :
  gen_run no_records 4 (iter_start no_records)
  = ([Relooped; Relooped; Relooped; Relooped], Ok (iter_start no_records)).
Proof.
  apply (empty_dataset_reloops no_records 4). reflexivity.
Defined.

Lemma binary_ones_and_zeros (l : list bool) : binary (ones_and_zeros l).
Proof.
  unfold binary, ones_and_zeros. apply Forall_map, Forall_forall.
  intros [|] _; auto.
Qed.

Lemma binary_repeat (x : Z) (n : nat) : x = 0 \/ x = 1 -> binary (repeat x n).
Proof.
  intros Hx. apply Forall_forall. intros y Hy. apply repeat_spec in Hy. now subst.
Qed.

(** X14: whatever the label policy returns, the masks handed to the caller
    hold nothing but 0 and 1: the label_mask of every packed window, and the
    input_mask and label_mask of every padded item. *)
Theorem yielded_masks_are_binary {Row} (self : ChatDataset Row)
    (st st' : IterState Row) (evs : list Event) :
  Steps self st evs st' ->
  Forall binary_masks evs.
Proof.
  intros Hrun.
  apply (Steps_invariant self (fun _ => True) binary_masks) in Hrun as [_ H]; auto.
  intros s s' ev _ Hstep. split; [exact I|].
  apply gen_step_cases in Hstep
    as [(_ & -> & _)
       |[(row & _ & _ & _ & o & _ & ->)|(row & _ & _ & _ & d & Hpad & ->)]].
  - exact I.
  - destruct o as [p|]; [|exact I]. apply binary_ones_and_zeros.
  - destruct (padding_shape_of_item self _ _ Hpad) as (k & Hm & Hl).
    cbn [binary_masks]. rewrite Hm, Hl. split.
    + apply Forall_app. split; apply binary_repeat; auto.
    + apply Forall_app. split; [apply binary_ones_and_zeros | apply binary_repeat; auto].
Qed.

Lemma yielded_masks_are_binary_witness :
  let d1 := {| Padded.input_ids := [7; 7; 7; 7; 7; 0; 0; 0; 0];
               Padded.input_mask := [1; 1; 1; 1; 1; 0; 0; 0; 0];
               Padded.label_mask := [1; 1; 1; 1; 1; 0; 0; 0; 0] |} in
  let d2 := {| Padded.input_ids := [9; 9; 9; 9; 9; 9; 9; 9; 0];
               Padded.input_mask := [1; 1; 1; 1; 1; 1; 1; 1; 0];
               Padded.label_mask := [1; 1; 1; 1; 1; 1; 1; 1; 0] |} in
  Forall binary_masks [Yield (PaddedItem d1); Yield (PaddedItem d2); Relooped].
Proof.
  intros d1 d2.
  apply (yielded_masks_are_binary unpacked_scenario (iter_start unpacked_scenario)
           {| bufs := empty_buffers; num_samples := 2;
              pending := [sample_of 5 7; sample_of 8 9] |}).
  apply (gen_run_Steps _ 3). vm_compute. reflexivity.
Defined.

(** * Tokens and flags stay aligned *)

(** The popped flags are the flags that were buffered before the sample came. *)
Lemma popped_flags (b : Buffers) (s : Sample) (p : Popped) :
  buffer_inv b -> well_formed s ->
  pop_last_sample (extend_buffers b s) s = Ok p ->
  sample_completitions p = buffer_is_completition b.
Proof.
  intros [Hsum Hfl] Hs Hpop.
  pose proof (popped_tokens b s p Hsum Hpop) as Ht.
  apply pop_last_sample_checked in Hpop as (H1 & _ & _ & Hc & _).
  project_buffers.
  destruct (nil_or_not (tokens s)) as [Hnil|Hne].
  - rewrite Hnil in Hc. change (- len (@nil Z)) with 0 in Hc. rewrite slice_to_zero in Hc.
    rewrite Hc. symmetry. apply len_nil_inv.
    rewrite Hc, Ht in H1. change (len (@nil bool)) with 0 in H1. lia.
  - rewrite Hc. apply slice_to_drop_last; [now symmetry | assumption].
Qed.

(** X16: when the tokenizer returns one flag per token, the labels of a
    window are computed from the tokens and the completion flags of the same
    samples, whole and in the same order: the flags never slip against the
    tokens, however the samples fall into windows. *)
Theorem window_labels_follow_samples {Row} (self : ChatDataset Row)
    (evs : list Event) (st : IterState Row) (w : Packed.t) :
  (forall row, In row (dataset self) -> well_formed (chat_tokenizer self row)) ->
  Steps self (iter_start self) evs st ->
  In w (windows evs) ->
  exists rows,
    incl rows (dataset self)
    /\ Packed.input_ids w = stream_tokens self rows
    /\ Packed.label_mask w
       = ones_and_zeros (create_labels self (stream_tokens self rows)
                           (stream_flags self rows)).
Proof.
  intros Hwf Hrun Hin.
  destruct (windows_yielded self _ _ _ _ Hrun Hin) as (evs1 & st1 & st2 & Hpre & Hy).
  clear Hrun Hin.
  assert (Hinv : incl (pending st1) (dataset self)
                 /\ buffer_inv (bufs st1)
                 /\ exists rows, incl rows (dataset self)
                      /\ buffer_tokens (bufs st1) = stream_tokens self rows
                      /\ buffer_is_completition (bufs st1) = stream_flags self rows).
  { apply (Steps_invariant self
             (fun st => incl (pending st) (dataset self)
                        /\ buffer_inv (bufs st)
                        /\ exists rows, incl rows (dataset self)
                             /\ buffer_tokens (bufs st) = stream_tokens self rows
                             /\ buffer_is_completition (bufs st) = stream_flags self rows)
             (fun _ => True)) in Hpre as [H _]; auto.
    - intros s s' ev (Hincl & Hb & rows & Hrows & Ht & Hf) Hstep. split; [|exact I].
      apply gen_step_cases in Hstep
        as [(_ & _ & -> & _ & ->)
           |[(row & Hp & _ & _ & o & Hk & _)|(row & Hp & _ & -> & _)]].
      + split; [apply incl_refl|]. split; [assumption | now exists rows].
      + assert (In row (dataset self)) as Hrow by (apply Hincl; rewrite Hp; now left).
        split; [intros x Hx; apply Hincl; rewrite Hp; now right|].
        apply pack_sample_cases in Hk as [(_ & -> & _)|(_ & -> & _)].
        * split; [apply extend_buffers_inv; auto|].
          exists (rows ++ [row]). split; [|split].
          -- apply incl_app; [assumption|]. intros x [<-|[]]. assumption.
          -- cbn [extend_buffers buffer_tokens]. now rewrite stream_tokens_snoc, Ht.
          -- cbn [extend_buffers buffer_is_completition]. unfold stream_flags.
             rewrite map_app, concat_app, Hf. cbn. now rewrite app_nil_r.
        * split; [apply reset_buffers_inv; auto|].
          exists [row]. split; [|split].
          -- intros x [<-|[]]. assumption.
          -- cbn. now rewrite app_nil_r.
          -- cbn. now rewrite app_nil_r.
      + split; [intros x Hx; apply Hincl; rewrite Hp; now right|].
        split; [assumption | now exists rows].
    - split; [apply incl_refl|]. split; [apply buffer_inv_empty|].
      exists []. repeat split. intros x []. }
  destruct Hinv as (Hincl & Hb & rows & Hrows & Ht & Hf).
  apply gen_step_cases in Hy
    as [(_ & Hev & _)
       |[(row & Hp & _ & _ & o & Hk & Hev)|(row & _ & _ & _ & d & _ & Hev)]];
    try discriminate.
  destruct o as [p|]; [|discriminate]. injection Hev as ->.
  apply pack_sample_cases in Hk as [(_ & _ & Hnone)|(_ & _ & q & Hq & Hpop)];
    [discriminate|]. injection Hq as <-.
  assert (well_formed (chat_tokenizer self row)) as Hrow
    by (apply Hwf, Hincl; rewrite Hp; now left).
  exists rows. cbn [packed_window Packed.input_ids Packed.label_mask].
  rewrite (popped_tokens _ _ _ (proj1 Hb) Hpop), (popped_flags _ _ _ Hb Hrow Hpop), Ht, Hf.
  auto.
Qed.

Lemma window_labels_follow_samples_witness :
  let w := {| Packed.input_ids := repeat 1 100%nat ++ repeat 2 50%nat;
              Packed.label_mask := repeat 1 150%nat;
              Packed.position_ids := range 100 ++ range 50 |} in
  exists rows,
    incl rows (dataset overflow_scenario)
    /\ Packed.input_ids w = stream_tokens overflow_scenario rows
    /\ Packed.label_mask w
       = ones_and_zeros (create_labels overflow_scenario
                           (stream_tokens overflow_scenario rows)
                           (stream_flags overflow_scenario rows)).
Proof.
  intros w.
  apply (window_labels_follow_samples overflow_scenario [Quiet; Quiet; Yield (PackedItem w)]
           {| bufs := reset_buffers (sample_of 80 3); num_samples := 0; pending := [] |} w).
  - exact overflow_scenario_well_formed.
  - apply (gen_run_Steps _ 3). vm_compute. reflexivity.
  - simpl. left. reflexivity.
Defined.
